(** * Mario Sound Jump: onset detector and game loop

    A shallow embedding of [services/audioProcessor.ts], [constants.ts] and
    the game logic of [App.tsx].

    Conventions of the embedding.
    - A JavaScript [number] is a rational ([Q]).  In the collision test
      and in the obstacle generation, where the rounding of a sum, a
      difference, a product or a quotient decides the comparison made on
      it, the operation is the rounded one of IEEE doubles ([JS.add],
      [JS.sub], [JS.mul], [JS.div]), and the quotient by zero is
      [JS.Infinity]; the integration of the physics and of the clocks is
      exact.  The [hoverTime] property that [startGame] leaves out of the
      player object is an [option]: [None] is JavaScript's [undefined].
    - The cells of the [Uint8Array] are naturals ([N]).
    - Objects held in React refs and component state are fields of one
      record, [App.World], threaded through every handler.
    - What the browser supplies (the analyser's magnitudes, the animation
      timestamp, [Math.random()], whether the canvas exists, whether the
      microphone is granted) is an explicit argument of the handler. *)

From Stdlib Require Import QArith Qminmax Qround Qabs Qpower NArith ZArith.
From Stdlib Require Import List Bool String Lia Lqa.
Import ListNotations.

Open Scope Q_scope.

(** ** JavaScript numbers *)

Definition number := Q.

Module JS.

(** [a < b] *)
Definition ltb (a b : number) : bool := negb (Qle_bool b a).

(** [a > b] *)
Definition gtb (a b : number) : bool := ltb b a.

(** [a >= b] *)
Definition geb (a b : number) : bool := Qle_bool b a.

(** [a === b] on numbers *)
Definition strict_eqb (a b : number) : bool := Qeq_bool a b.

(** [Math.max], [Math.min], [Math.floor] *)
Definition max (a b : number) : number := Qmax a b.
Definition min (a b : number) : number := Qmin a b.
Definition floor (a : number) : Z := Qfloor a.

(** [u < b] where [u] may be [undefined]: [undefined] converts to NaN
    and every comparison with NaN is false. *)
Definition ltb_undef (u : option number) (b : number) : bool :=
  match u with
  | Some a => ltb a b
  | None => false
  end.

(** A [Uint8Array] cell read as a number. *)
Definition of_byte (b : N) : number := inject_Z (Z.of_N b).

(** *** Double precision

    A double keeps 53 binary digits.  [round q] is the double nearest to
    [q], the one with an even last digit when [q] is half way between two
    doubles: the result of every arithmetic operation of JavaScript, and
    the value of a decimal literal.  Magnitudes beyond the largest double
    are rounded with 53 digits as well instead of becoming infinite; they
    compare with the finite numbers as the infinities do. *)

(** The integer nearest to [m], the even one of the two when [m] is half
    way between them. *)
Definition nearestEven (m : Q) : Z :=
  let k := Qfloor m in
  match Qcompare (m - inject_Z k) (1 # 2) with
  | Lt => k
  | Gt => (k + 1)%Z
  | Eq => if Z.even k then k else (k + 1)%Z
  end.

(** The exponent of the last binary digit a double of magnitude [a]
    keeps: [e - 52] when [2^e <= a < 2^(e+1)], and [-1074] for the
    subnormal magnitudes, those below [2^(-1022)]. *)
Definition ulpExponent (a : Q) : Z :=
  (Z.max (Z.log2 (Qfloor (a * 2 ^ 1074)) - 52) 0 - 1074)%Z.

Definition round (q : Q) : number :=
  let a := Qabs q in
  let t := ulpExponent a in
  let r := inject_Z (nearestEven (a / 2 ^ t)) * 2 ^ t in
  if Qle_bool 0 q then r else - r.

Arguments round : simpl never.

(** [a + b], [a - b], [a * b] *)
Definition add (a b : number) : number := round (a + b).
Definition sub (a b : number) : number := round (a - b).
Definition mul (a b : number) : number := round (a * b).

(** The result of a division: a number, or what a zero divisor gives. *)
Inductive quotient :=
| Finite (q : number)
| Infinity
| MinusInfinity
| NaN.

(** [a / b] *)
Definition div (a b : number) : quotient :=
  if Qeq_bool b 0 then
    match Qcompare a 0 with
    | Gt => Infinity
    | Lt => MinusInfinity
    | Eq => NaN
    end
  else Finite (round (a / b)).

(** [a > b] where [b] is the result of a division. *)
Definition gtb_quotient (a : number) (b : quotient) : bool :=
  match b with
  | Finite b => gtb a b
  | Infinity => false
  | MinusInfinity => true
  | NaN => false
  end.

End JS.

(** ** services/audioProcessor.ts *)

Module AudioProcessor.

(** The browser objects the processor holds on to.  Only what [stop]
    changes about them is recorded. *)
Inductive AudioContextState := running | closed.

Record MediaStream := { tracksLive : bool }.

Record AnalyserNode := { fftSize : N }.

Definition frequencyBinCount (a : AnalyserNode) : N := (fftSize a / 2)%N.

Record MediaStreamAudioSourceNode := { connected : bool }.

Record t := mk {
  audioContext : option AudioContextState;
  analyser : option AnalyserNode;
  microphone : option MediaStreamAudioSourceNode;
  dataArray : option (list N);
  stream : option MediaStream;
  threshold : number;
  isSounding : bool
}.

(** [new AudioProcessor()] *)
Definition new : t :=
  mk None None None None None 30 false.

Definition with_dataArray (d : option (list N)) (p : t) : t :=
  mk (audioContext p) (analyser p) (microphone p) d (stream p)
     (threshold p) (isSounding p).

Definition with_isSounding (b : bool) (p : t) : t :=
  mk (audioContext p) (analyser p) (microphone p) (dataArray p) (stream p)
     (threshold p) b.

Inductive DeviceAccessError := microphoneDenied.

(** [start()].  [granted] is the outcome of [getUserMedia]: when the
    promise rejects, the assignment to [this.stream] never happens and
    the error is rethrown. *)
Definition start (granted : bool) (p : t) : t + DeviceAccessError :=
  if granted then
    let a := {| fftSize := 256 |} in
    inl (mk (Some running)
            (Some a)
            (Some {| connected := true |})
            (Some (repeat 0%N (N.to_nat (frequencyBinCount a))))
            (Some {| tracksLive := true |})
            (threshold p) (isSounding p))
  else inr microphoneDenied.

(** [stop()]: stops the tracks and closes the context.  No field of
    the processor is reassigned. *)
Definition stop (p : t) : t :=
  mk (match audioContext p with
      | Some _ => Some closed
      | None => None
      end)
     (analyser p) (microphone p) (dataArray p)
     (match stream p with
      | Some _ => Some {| tracksLive := false |}
      | None => None
      end)
     (threshold p) (isSounding p).

(** [setThreshold(value)] *)
Definition setThreshold (value : number) (p : t) : t :=
  mk (audioContext p) (analyser p) (microphone p) (dataArray p) (stream p)
     value (isSounding p).

(** [analyser.getByteFrequencyData(array)]: the analyser's current
    magnitudes [bins] overwrite the front of [array]; cells beyond the
    magnitudes keep their content, magnitudes beyond the array are
    dropped. *)
Definition getByteFrequencyData (bins array : list N) : list N :=
  firstn (List.length array) bins ++ skipn (List.length bins) array.

(** The loop of [getVolume]:
    [let max = 0; for (i...) if (dataArray[i] > max) max = dataArray[i]] *)
Definition peak (array : list N) : N :=
  fold_left (fun max x => if (max <? x)%N then x else max) array 0%N.

(** [getVolume()], given the magnitudes the analyser holds. *)
Definition getVolume (bins : list N) (p : t) : number * t :=
  match analyser p, dataArray p with
  | Some _, Some array =>
      let array' := getByteFrequencyData bins array in
      (JS.of_byte (peak array'), with_dataArray (Some array') p)
  | _, _ => (0, p)
  end.

Record SoundStatus := {
  onset : bool;
  offset : bool;
  sounding : bool   (* the [isSounding] property of the returned object *)
}.

(** [checkSound()] *)
Definition checkSound (bins : list N) (p : t) : SoundStatus * t :=
  let (volume, p1) := getVolume bins p in
  let nowSounding := JS.gtb volume (threshold p1) in
  let onset :=
    if nowSounding && negb (isSounding p1) then true else false in
  let offset :=
    if nowSounding && negb (isSounding p1) then false
    else if negb nowSounding && isSounding p1 then true
    else false in
  let p2 := with_isSounding nowSounding p1 in
  ({| onset := onset; offset := offset; sounding := isSounding p2 |}, p2).

(** A capture session is live when the stream's tracks run and the
    context is not closed. *)
Definition sessionActive (p : t) : bool :=
  match stream p, audioContext p with
  | Some s, Some running => tracksLive s
  | _, _ => false
  end.

End AudioProcessor.

(** ** constants.ts *)

Record LevelConfig := {
  id : number;
  name : string;
  bpm : number;
  duration : number;
  requiredSounds : number;
  description : string;
  speedMultiplier : number;
  isPro : option bool
}.

Definition LEVELS : list LevelConfig :=
  [ {| id := 1; name := "Nivel 1: Principiante"; bpm := 50; duration := 120;
       requiredSounds := 10;
       description := "Pantalla lenta. Realiza 10 sonidos para ganar.";
       speedMultiplier := 1; isPro := None |};
    {| id := 2; name := "Nivel 2: Intermedio"; bpm := 60; duration := 120;
       requiredSounds := 10;
       description := "Velocidad moderada. Realiza 10 sonidos para ganar.";
       speedMultiplier := 1.2; isPro := None |};
    {| id := 3; name := "Nivel 3: Avanzado"; bpm := 70; duration := 120;
       requiredSounds := 20;
       description := "Velocidad rápida. Realiza 20 sonidos para ganar.";
       speedMultiplier := 1.5; isPro := None |};
    {| id := 4; name := "Nivel 4: Pro"; bpm := 70; duration := 120;
       requiredSounds := 20;
       description :=
         "Dificultad escalable. La velocidad aumenta con el tiempo.";
       speedMultiplier := 1.5; isPro := Some true |} ].

Inductive Status := menu | playing | gameover | win.

Record GameState := {
  status : Status;
  currentLevel : option LevelConfig;
  score : number;
  soundsDetected : number;
  timeLeft : number
}.

(** ** App.tsx *)

Module App.

(** *** Game constants *)

Definition CANVAS_WIDTH : number := 800.
Definition CANVAS_HEIGHT : number := 400.
Definition GRAVITY : number := 0.6.
Definition JUMP_FORCE : number := -12.
Definition GROUND_Y : number := CANVAS_HEIGHT - 60.
Definition PLAYER_SIZE : number := 40.
Definition OBSTACLE_WIDTH : number := 30.
Definition OBSTACLE_HEIGHT : number := 50.

(** [const dt = 16.67] inside [gameLoop] *)
Definition dt : number := 16.67.

(** *** Game objects *)

Record Player := {
  y : number;
  vy : number;
  isJumping : bool;
  hoverTime : option number   (* [None]: the property is absent *)
}.

Inductive ObstacleType := pipe | box | plant.

Record Obstacle := { x : number; type : ObstacleType }.

(** What one pass through the drawing code paints: the player at its
    height, the glow flag, the obstacles, and the run time that moves
    the clouds and the plants. *)
Record Scene := {
  scenePlayerY : number;
  sceneGlow : bool;
  sceneObstacles : list Obstacle;
  sceneTime : number
}.

(** Component state ([useState]), refs ([useRef]) and the two output
    channels of the component: the canvas, as the list of scenes painted
    so far (latest first), and the [alert] dialogs shown. *)
Record World := mkWorld {
  gameState : GameState;
  micEnabled : bool;
  threshold : number;
  proSpeed : number;
  audioProcessorRef : option AudioProcessor.t;
  playerRef : Player;
  obstaclesRef : list Obstacle;
  lastObstacleTime : number;
  gameTimeRef : number;
  soundsCountRef : number;
  canvas : list Scene;
  alerts : list string
}.

(** The component as first mounted. *)
Definition initial : World :=
  {| gameState := {| status := menu; currentLevel := None; score := 0;
                     soundsDetected := 0; timeLeft := 120 |};
     micEnabled := false;
     threshold := 30;
     proSpeed := 1.5;
     audioProcessorRef := None;
     playerRef := {| y := GROUND_Y - PLAYER_SIZE; vy := 0;
                     isJumping := false; hoverTime := Some 0 |};
     obstaclesRef := [];
     lastObstacleTime := 0;
     gameTimeRef := 0;
     soundsCountRef := 0;
     canvas := [];
     alerts := [] |}.

(** Field assignments. *)
Definition set_gameState (v : GameState) (w : World) : World :=
  mkWorld v (micEnabled w) (threshold w) (proSpeed w) (audioProcessorRef w)
    (playerRef w) (obstaclesRef w) (lastObstacleTime w) (gameTimeRef w)
    (soundsCountRef w) (canvas w) (alerts w).
Definition set_micEnabled (v : bool) (w : World) : World :=
  mkWorld (gameState w) v (threshold w) (proSpeed w) (audioProcessorRef w)
    (playerRef w) (obstaclesRef w) (lastObstacleTime w) (gameTimeRef w)
    (soundsCountRef w) (canvas w) (alerts w).
Definition set_threshold (v : number) (w : World) : World :=
  mkWorld (gameState w) (micEnabled w) v (proSpeed w) (audioProcessorRef w)
    (playerRef w) (obstaclesRef w) (lastObstacleTime w) (gameTimeRef w)
    (soundsCountRef w) (canvas w) (alerts w).
Definition set_proSpeed (v : number) (w : World) : World :=
  mkWorld (gameState w) (micEnabled w) (threshold w) v (audioProcessorRef w)
    (playerRef w) (obstaclesRef w) (lastObstacleTime w) (gameTimeRef w)
    (soundsCountRef w) (canvas w) (alerts w).
Definition set_audioProcessorRef (v : option AudioProcessor.t) (w : World)
  : World :=
  mkWorld (gameState w) (micEnabled w) (threshold w) (proSpeed w) v
    (playerRef w) (obstaclesRef w) (lastObstacleTime w) (gameTimeRef w)
    (soundsCountRef w) (canvas w) (alerts w).
Definition set_playerRef (v : Player) (w : World) : World :=
  mkWorld (gameState w) (micEnabled w) (threshold w) (proSpeed w)
    (audioProcessorRef w) v (obstaclesRef w) (lastObstacleTime w)
    (gameTimeRef w) (soundsCountRef w) (canvas w) (alerts w).
Definition set_obstaclesRef (v : list Obstacle) (w : World) : World :=
  mkWorld (gameState w) (micEnabled w) (threshold w) (proSpeed w)
    (audioProcessorRef w) (playerRef w) v (lastObstacleTime w)
    (gameTimeRef w) (soundsCountRef w) (canvas w) (alerts w).
Definition set_lastObstacleTime (v : number) (w : World) : World :=
  mkWorld (gameState w) (micEnabled w) (threshold w) (proSpeed w)
    (audioProcessorRef w) (playerRef w) (obstaclesRef w) v
    (gameTimeRef w) (soundsCountRef w) (canvas w) (alerts w).
Definition set_gameTimeRef (v : number) (w : World) : World :=
  mkWorld (gameState w) (micEnabled w) (threshold w) (proSpeed w)
    (audioProcessorRef w) (playerRef w) (obstaclesRef w)
    (lastObstacleTime w) v (soundsCountRef w) (canvas w) (alerts w).
Definition set_soundsCountRef (v : number) (w : World) : World :=
  mkWorld (gameState w) (micEnabled w) (threshold w) (proSpeed w)
    (audioProcessorRef w) (playerRef w) (obstaclesRef w)
    (lastObstacleTime w) (gameTimeRef w) v (canvas w) (alerts w).
Definition set_canvas (v : list Scene) (w : World) : World :=
  mkWorld (gameState w) (micEnabled w) (threshold w) (proSpeed w)
    (audioProcessorRef w) (playerRef w) (obstaclesRef w)
    (lastObstacleTime w) (gameTimeRef w) (soundsCountRef w) v (alerts w).

(** [alert(msg)] *)
Definition alert (msg : string) (w : World) : World :=
  mkWorld (gameState w) (micEnabled w) (threshold w) (proSpeed w)
    (audioProcessorRef w) (playerRef w) (obstaclesRef w)
    (lastObstacleTime w) (gameTimeRef w) (soundsCountRef w) (canvas w)
    (msg :: alerts w).

(** [setGameState(prev => f prev)], applied at once. *)
Definition setGameState (f : GameState -> GameState) (w : World) : World :=
  set_gameState (f (gameState w)) w.

(** [{ ...prev, status: s }] and [{ ...prev, soundsDetected: n }] *)
Definition with_status (s : Status) (prev : GameState) : GameState :=
  {| status := s; currentLevel := currentLevel prev; score := score prev;
     soundsDetected := soundsDetected prev; timeLeft := timeLeft prev |}.
Definition with_soundsDetected (n : number) (prev : GameState) : GameState :=
  {| status := status prev; currentLevel := currentLevel prev;
     score := score prev; soundsDetected := n; timeLeft := timeLeft prev |}.

Definition is_playing (s : Status) : bool :=
  match s with playing => true | _ => false end.

(** *** Microphone and sensitivity controls *)

(** [toggleMic], with the outcome of the permission request. *)
Definition toggleMic (granted : bool) (w : World) : World :=
  if negb (micEnabled w) then
    let ap := match audioProcessorRef w with
              | Some ap => ap
              | None => AudioProcessor.new
              end in
    match AudioProcessor.start granted ap with
    | inl ap' => set_micEnabled true (set_audioProcessorRef (Some ap') w)
    | inr _ =>
        alert "No se pudo acceder al micrófono. Por favor, permite el acceso."
          (set_audioProcessorRef (Some ap) w)
    end
  else
    set_micEnabled false
      (set_audioProcessorRef
         (option_map AudioProcessor.stop (audioProcessorRef w)) w).

(** The sensitivity slider: [setThreshold(v)] on the component, then the
    effect on [threshold] that forwards the value to the processor, if
    there is one.  React runs the effect only when the state has changed. *)
Definition changeThreshold (v : number) (w : World) : World :=
  if JS.strict_eqb v (threshold w) then w
  else
    let w := set_threshold v w in
    match audioProcessorRef w with
    | Some ap =>
        set_audioProcessorRef (Some (AudioProcessor.setThreshold v ap)) w
    | None => w
    end.

(** *** startGame *)

Definition startGame (level : LevelConfig) (w : World) : World :=
  if negb (micEnabled w) then
    alert "Por favor, activa el micrófono antes de empezar." w
  else
    let w := set_gameState
               {| status := playing; currentLevel := Some level; score := 0;
                  soundsDetected := 0; timeLeft := duration level |} w in
    (* Reset game objects *)
    let w := set_playerRef
               {| y := GROUND_Y - PLAYER_SIZE; vy := 0; isJumping := false;
                  hoverTime := None |} w in
    let w := set_obstaclesRef [] w in
    let w := set_lastObstacleTime 0 w in
    let w := set_gameTimeRef 0 w in
    set_soundsCountRef 0 w.

(** *** gameLoop *)

(** What the browser hands to one invocation of [gameLoop]. *)
Record Frame := {
  time : number;            (* the animation-frame timestamp *)
  canvasMounted : bool;     (* [canvasRef.current] is not null *)
  context2d : bool;         (* [getContext('2d')] is not null *)
  binsCheck : list N;       (* analyser magnitudes read by [checkSound] *)
  binsVolume : list N;      (* analyser magnitudes read by [getVolume] *)
  random1 : number;         (* first [Math.random()], in [0,1) *)
  random2 : number          (* second [Math.random()], in [0,1) *)
}.

(** The onset handler: the four assignments and the state update made
    when [audioStatus.onset] holds. *)
Definition onOnset (w : World) : World :=
  let p := playerRef w in
  let w := set_playerRef
             {| y := y p; vy := JUMP_FORCE; isJumping := true;
                hoverTime := Some 0 |} w in
  let w := set_soundsCountRef (soundsCountRef w + 1) w in
  setGameState (with_soundsDetected (soundsCountRef w)) w.

(** "Audio Detection": polls the processor, if any, and returns the
    local [isSounding] with the updated world. *)
Definition audioDetection (f : Frame) (w : World) : bool * World :=
  match audioProcessorRef w with
  | Some ap =>
      let (audioStatus, ap) := AudioProcessor.checkSound (binsCheck f) ap in
      let isSounding := AudioProcessor.sounding audioStatus in
      let (volume, ap) := AudioProcessor.getVolume (binsVolume f) ap in
      let w := set_audioProcessorRef (Some ap) w in
      (isSounding,
       if AudioProcessor.onset audioStatus then onOnset w else w)
  | None => (false, w)
  end.

(** [hoverTime += dt / 1000]; reached only after [hoverTime < 2] held,
    so the property is a number there. *)
Definition addHover (h : option number) : option number :=
  match h with
  | Some t => Some (t + dt / 1000)
  | None => None
  end.

(** "Physics: Jump + Hover" *)
Definition jumpHover (isSounding : bool) (p : Player) : Player :=
  if isSounding && isJumping p then
    if JS.ltb_undef (hoverTime p) 2 then
      {| y := y p; vy := JS.min (vy p) 1.0; isJumping := isJumping p;
         hoverTime := addHover (hoverTime p) |}
    else
      {| y := y p; vy := vy p + GRAVITY; isJumping := isJumping p;
         hoverTime := hoverTime p |}
  else
    {| y := y p; vy := vy p + GRAVITY; isJumping := isJumping p;
       hoverTime := hoverTime p |}.

(** [playerRef.current.y += playerRef.current.vy] *)
Definition integrate (p : Player) : Player :=
  {| y := y p + vy p; vy := vy p; isJumping := isJumping p;
     hoverTime := hoverTime p |}.

(** "Boundary checks", split in the two tests of the source. *)
Definition groundCheck (p : Player) : Player :=
  if JS.gtb (y p) (GROUND_Y - PLAYER_SIZE) then
    {| y := GROUND_Y - PLAYER_SIZE; vy := 0; isJumping := false;
       hoverTime := hoverTime p |}
  else p.

Definition ceilingCheck (p : Player) : Player :=
  if JS.ltb (y p) 0 then
    {| y := 0; vy := 0; isJumping := isJumping p;
       hoverTime := hoverTime p |}
  else p.

Definition boundaryChecks (p : Player) : Player :=
  ceilingCheck (groundCheck p).

(** The physics of one frame, from the hover test to the clamps. *)
Definition physics (isSounding : bool) (p : Player) : Player :=
  boundaryChecks (integrate (jumpHover isSounding p)).

(** [level.isPro ? proSpeed : level.speedMultiplier] *)
Definition currentSpeed (level : LevelConfig) (w : World) : number :=
  match isPro level with
  | Some true => proSpeed w
  | _ => speedMultiplier level
  end.

Definition types : list ObstacleType := [pipe; box; plant].

(** "Obstacle Generation".  The quotient, the difference and the product
    are the rounded ones and [0.4] is the double of that literal.  A double
    [random2] of [0,1) gives the index 0, 1 or 2. *)
Definition obstacleGeneration (level : LevelConfig) (f : Frame) (w : World)
  : World :=
  let beatInterval := JS.div 60000 (bpm level) in
  if JS.gtb_quotient (JS.sub (time f) (lastObstacleTime w)) beatInterval then
    let w :=
      if JS.gtb (random1 f) (JS.round 0.4) then
        let type :=
          nth (Z.to_nat (JS.floor (JS.mul (random2 f) 3))) types plant in
        set_obstaclesRef
          (obstaclesRef w ++ [ {| x := CANVAS_WIDTH; type := type |} ]) w
      else w in
    set_lastObstacleTime (time f) w
  else w.

(** "Update Obstacles" *)
Definition updateObstacles (scrollSpeed : number) (obs : list Obstacle)
  : list Obstacle :=
  map (fun obs => {| x := x obs - scrollSpeed; type := type obs |}) obs.

(** The geometry of an obstacle in the collision test. *)
Definition obsHeight (obs : Obstacle) : number :=
  match type obs with
  | box => 40
  | _ => OBSTACLE_HEIGHT
  end.

Definition obsY (obs : Obstacle) : number :=
  match type obs with
  | box => GROUND_Y - 100
  | _ => GROUND_Y - obsHeight obs
  end.

(** The condition of the [if] inside the collision loop, on the sums as
    the program computes them. *)
Definition hits (p : Player) (obs : Obstacle) : bool :=
  JS.ltb (x obs) (JS.add 50 PLAYER_SIZE) &&
  JS.gtb (JS.add (x obs) OBSTACLE_WIDTH) 50 &&
  JS.gtb (JS.add (y p) PLAYER_SIZE) (obsY obs) &&
  JS.ltb (y p) (JS.add (obsY obs) (obsHeight obs)).

(** "Collision Detection": the [for ... of] loop; [true] when the loop
    left through its [return]. *)
Fixpoint collisionDetection (p : Player) (obstacles : list Obstacle)
  : bool :=
  match obstacles with
  | [] => false
  | obs :: rest =>
      if hits p obs then true else collisionDetection p rest
  end.

(** "Remove off-screen obstacles" *)
Definition removeOffScreen (obs : list Obstacle) : list Obstacle :=
  filter (fun obs => JS.gtb (x obs) (- OBSTACLE_WIDTH)) obs.

(** "Drawing" *)
Definition drawing (isSounding : bool) (w : World) : World :=
  set_canvas
    ({| scenePlayerY := y (playerRef w);
        sceneGlow := isSounding && isJumping (playerRef w);
        sceneObstacles := obstaclesRef w;
        sceneTime := gameTimeRef w |} :: canvas w) w.

(** The frame once the clock has been advanced and time is left, up to
    the collision loop: audio, physics, spawning and scrolling. *)
Definition advance (level : LevelConfig) (f : Frame) (w : World)
  : bool * World :=
  let (isSounding, w) := audioDetection f w in
  let w := set_playerRef (physics isSounding (playerRef w)) w in
  let scrollSpeed := currentSpeed level w * 4 in
  let w := obstacleGeneration level f w in
  (isSounding,
   set_obstaclesRef (updateObstacles scrollSpeed (obstaclesRef w)) w).

(** ... and from the collision loop on: collision, pruning, drawing. *)
Definition playFrame (level : LevelConfig) (f : Frame) (w : World)
  : World :=
  let (isSounding, w) := advance level f w in
  if collisionDetection (playerRef w) (obstaclesRef w) then
    setGameState (with_status gameover) w
  else
    let w := set_obstaclesRef (removeOffScreen (obstaclesRef w)) w in
    drawing isSounding w.

Definition gameLoop (f : Frame) (w : World) : World :=
  if negb (is_playing (status (gameState w))) || negb (canvasMounted f)
  then w
  else
    match currentLevel (gameState w) with
    | None => w
    | Some level =>
        if negb (context2d f) then w
        else
          let w := set_gameTimeRef (gameTimeRef w + dt / 1000) w in
          (* Update time left *)
          let newTimeLeft :=
            JS.max 0 (duration level - gameTimeRef w) in
          if JS.strict_eqb newTimeLeft 0 then
            setGameState
              (with_status
                 (if JS.geb (soundsCountRef w) (requiredSounds level)
                  then win else gameover)) w
          else playFrame level f w
    end.

(** A run of frames, in the order the browser delivers them.  The
    [requestAnimationFrame] that closes a played frame, and the effect
    that requests or cancels frames when the status changes, are the
    browser's side of the loop: here they are the next element of the
    list.  A frame delivered when the run is no longer [playing] returns
    at the first guard. *)
Definition run (frames : list Frame) (w : World) : World :=
  fold_left (fun w f => gameLoop f w) frames w.

(** *** The component as an event handler *)

(** What can happen to the mounted component: the controls of the
    screens and the animation frame. *)
Inductive Event :=
| ToggleMic (granted : bool)
| ChangeThreshold (v : number)
| ChangeProSpeed (v : number)
| StartGame (level : LevelConfig)
| ExitToMenu
| AnimationFrame (f : Frame).

Definition handle (w : World) (e : Event) : World :=
  match e with
  | ToggleMic granted => toggleMic granted w
  | ChangeThreshold v => changeThreshold v w
  | ChangeProSpeed v => set_proSpeed v w
  | StartGame level => startGame level w
  | ExitToMenu => setGameState (with_status menu) w
  | AnimationFrame f => gameLoop f w
  end.

Definition after (events : list Event) : World :=
  fold_left handle events initial.

End App.

(** ** States and inputs used in the examples *)

Import AudioProcessor App.

(** A processor on which [start] succeeded. *)
Definition started : AudioProcessor.t :=
  match start true AudioProcessor.new with
  | inl p => p
  | inr _ => AudioProcessor.new
  end.

(** Analyser content with a single magnitude of 90, in the sixth of the
    128 bins. *)
Definition spike : list N := repeat 0%N 5 ++ 90%N :: repeat 0%N 122.

(** The first level of [LEVELS]. *)
Definition level1 : LevelConfig :=
  {| id := 1; name := "Nivel 1: Principiante"; bpm := 50; duration := 120;
     requiredSounds := 10;
     description := "Pantalla lenta. Realiza 10 sonidos para ganar.";
     speedMultiplier := 1; isPro := None |}.

(** Frames delivered at timestamp [t] with the canvas in place and no
    obstacle spawned: one while the room is silent, one while a note
    sounds. *)
Definition quietFrame (t : number) : Frame :=
  {| time := t; canvasMounted := true; context2d := true;
     binsCheck := repeat 0%N 128; binsVolume := repeat 0%N 128;
     random1 := 0; random2 := 0 |}.

Definition loudFrame (t : number) : Frame :=
  {| time := t; canvasMounted := true; context2d := true;
     binsCheck := spike; binsVolume := spike;
     random1 := 0; random2 := 0 |}.

(** A run of level 1 just started, with the microphone on. *)
Definition freshRun : World :=
  startGame level1 (toggleMic true initial).

(** The same run in its last instant, with [n] onsets counted. *)
Definition lastInstant (n : number) : World :=
  set_soundsCountRef n (set_gameTimeRef 119.99 freshRun).

(** The length of the common part of the intervals [lo1, hi1] and
    [lo2, hi2]: positive when they overlap, zero when they touch at an end,
    negative when they are apart. *)
Definition overlap (lo1 hi1 lo2 hi2 : number) : number :=
  Qmin hi1 hi2 - Qmax lo1 lo2.

(** The overlap of the player's box and an obstacle's box on each axis. *)
Definition overlapX (obs : Obstacle) : number :=
  overlap 50 (50 + PLAYER_SIZE) (x obs) (x obs + OBSTACLE_WIDTH).

Definition overlapY (p : Player) (obs : Obstacle) : number :=
  overlap (y p) (y p + PLAYER_SIZE) (obsY obs) (obsY obs + obsHeight obs).

(** A player standing on the ground, and one at height [h]. *)
Definition standing : Player :=
  {| y := GROUND_Y - PLAYER_SIZE; vy := 0; isJumping := false;
     hoverTime := Some 0 |}.

Definition playerAt (h : number) : Player :=
  {| y := h; vy := 0; isJumping := true; hoverTime := Some 0 |}.

(** A pipe whose left edge is at the double written [20.000000000000004],
    the double next above 20. *)
Definition grazingPipe : Obstacle :=
  {| x := JS.round 20.000000000000004; type := pipe |}.

(** The standing player as an onset leaves it, before the physics step. *)
Definition launched : Player :=
  {| y := GROUND_Y - PLAYER_SIZE; vy := JUMP_FORCE; isJumping := true;
     hoverTime := Some 0 |}.

(** Two worlds that differ at most in the dialogs shown. *)
Definition sameGame (w w' : World) : Prop :=
  gameState w' = gameState w /\
  micEnabled w' = micEnabled w /\
  App.threshold w' = App.threshold w /\
  proSpeed w' = proSpeed w /\
  audioProcessorRef w' = audioProcessorRef w /\
  playerRef w' = playerRef w /\
  obstaclesRef w' = obstaclesRef w /\
  lastObstacleTime w' = lastObstacleTime w /\
  gameTimeRef w' = gameTimeRef w /\
  soundsCountRef w' = soundsCountRef w /\
  canvas w' = canvas w.

(** The session of the processor the component holds, if it holds one. *)
Definition micSession (w : World) : bool :=
  match audioProcessorRef w with
  | Some ap => sessionActive ap
  | None => false
  end.

(** A frame late enough for the beat of level 1 to have passed, with
    random draws that spawn a box. *)
Definition spawnFrame (t : number) : Frame :=
  {| time := t; canvasMounted := true; context2d := true;
     binsCheck := repeat 0%N 128; binsVolume := repeat 0%N 128;
     random1 := 0.5; random2 := 0.5 |}.

(** Lower bounds, [k] quiet frames on, for the velocity and the height
    coordinate of a player that is still in the air: gravity has been
    added [k] times to a velocity of at least [JUMP_FORCE], and the height
    coordinate has grown by at least those velocities, from at least 0. *)
Definition leastVelocity (k : nat) : number :=
  JUMP_FORCE + inject_Z (Z.of_nat k) * GRAVITY.

Fixpoint leastY (k : nat) : number :=
  match k with
  | O => 0
  | S k' => Qmax 0 (leastY k' + leastVelocity k)
  end.

(** The player is on the ground, at rest. *)
Definition grounded (p : Player) : Prop :=
  y p = GROUND_Y - PLAYER_SIZE /\ vy p = 0 /\ isJumping p = false.

(** A sequence of polls: [checkSound] called once for each content of
    the analyser, with the statuses it returned, in order. *)
Fixpoint polls (samples : list (list N)) (p : AudioProcessor.t)
  : list SoundStatus * AudioProcessor.t :=
  match samples with
  | [] => ([], p)
  | bins :: rest =>
      let (r, p1) := checkSound bins p in
      let (rs, p2) := polls rest p1 in
      (r :: rs, p2)
  end.

(** How many of the statuses report an onset, and how many an offset. *)
Definition onsets (rs : list SoundStatus) : nat :=
  List.length (filter onset rs).

Definition offsets (rs : list SoundStatus) : nat :=
  List.length (filter offset rs).

(** A processor ready to be polled: a live session, the analyser that
    [start] configures and a buffer of 128 cells. *)
Definition processorReady (ap : AudioProcessor.t) : Prop :=
  sessionActive ap = true /\
  analyser ap = Some {| fftSize := 256 |} /\
  exists array, dataArray ap = Some array /\ List.length array = 128%nat.

(** The processor the component holds has the threshold the slider shows. *)
Definition thresholdsAgree (w : World) : Prop :=
  exists ap, audioProcessorRef w = Some ap /\
             AudioProcessor.threshold ap = App.threshold w.

(** A painted scene shows the player between ceiling and ground and no
    obstacle that has left the canvas on the left. *)
Definition sceneOnScreen (sc : Scene) : Prop :=
  (0 <= scenePlayerY sc /\ scenePlayerY sc <= GROUND_Y - PLAYER_SIZE) /\
  Forall (fun obs => - OBSTACLE_WIDTH < x obs) (sceneObstacles sc).

(** * Properties *)

(** ** The examples are what they claim to be *)

Lemma level1_in_LEVELS : In level1 LEVELS.
Proof. left. reflexivity. Qed.

Lemma started_by_start : start true AudioProcessor.new = inl started.
Proof. reflexivity. Qed.

Lemma freshRun_is_playing :
  micEnabled freshRun = true /\
  status (gameState freshRun) = playing /\
  currentLevel (gameState freshRun) = Some level1.
Proof. repeat split. Qed.

(** ** Comparisons *)

Lemma ltb_true (a b : number) : JS.ltb a b = true <-> a < b.
Proof.
  unfold JS.ltb. rewrite negb_true_iff, <- not_true_iff_false, Qle_bool_iff.
  split; [apply Qnot_le_lt | apply Qlt_not_le].
Qed.

Lemma ltb_false (a b : number) : JS.ltb a b = false <-> b <= a.
Proof.
  unfold JS.ltb. rewrite negb_false_iff. apply Qle_bool_iff.
Qed.

Lemma gtb_true (a b : number) : JS.gtb a b = true <-> b < a.
Proof. apply ltb_true. Qed.

Lemma gtb_false (a b : number) : JS.gtb a b = false <-> a <= b.
Proof. apply ltb_false. Qed.

Lemma geb_true (a b : number) : JS.geb a b = true <-> b <= a.
Proof. apply Qle_bool_iff. Qed.

Lemma geb_false (a b : number) : JS.geb a b = false <-> a < b.
Proof.
  unfold JS.geb. rewrite <- not_true_iff_false, Qle_bool_iff.
  split; [apply Qnot_le_lt | apply Qlt_not_le].
Qed.

Lemma strict_eqb_true (a b : number) : JS.strict_eqb a b = true <-> a == b.
Proof. apply Qeq_bool_iff. Qed.

Lemma ltb_undef_true (u : option number) (b : number) :
  JS.ltb_undef u b = true <-> exists a, u = Some a /\ a < b.
Proof.
  destruct u as [a|]; simpl.
  - rewrite ltb_true. split.
    + intros H. exists a. auto.
    + intros [a' [E H]]. injection E as ->. exact H.
  - split; [discriminate | intros [a [E _]]; discriminate].
Qed.

(** ** The onset detector *)

(** The peak loop, started from any running maximum. *)
Lemma peak_loop_bounds (array : list N) (m : N) :
  let v := fold_left (fun max x => if (max <? x)%N then x else max) array m in
  (m <= v)%N /\ Forall (fun x => (x <= v)%N) array /\ (v = m \/ In v array).
Proof.
  revert m. induction array as [|x array IH]; intros m; simpl.
  - repeat split; [lia | constructor | now left].
  - destruct (N.ltb_spec m x) as [Hlt|Hge].
    + destruct (IH x) as (Hle & Hall & Hin). repeat split.
      * lia.
      * constructor; assumption.
      * right. destruct Hin as [->|Hin]; [now left | now right].
    + destruct (IH m) as (Hle & Hall & Hin). repeat split.
      * exact Hle.
      * constructor; [lia | assumption].
      * destruct Hin as [Hm|Hin]; [now left | right; now right].
Qed.

Lemma peak_upper_bound (array : list N) :
  Forall (fun x => (x <= peak array)%N) array.
Proof. apply (peak_loop_bounds array 0%N). Qed.

Lemma peak_attained (array : list N) :
  array <> [] -> In (peak array) array.
Proof.
  intros Hne. destruct (peak_loop_bounds array 0%N) as (_ & Hall & [H0|Hin]).
  - fold (peak array) in *. destruct array as [|x array]; [congruence|].
    inversion Hall as [|? ? Hx _]; subst.
    assert (x = 0%N) by lia. subst. rewrite H0. now left.
  - exact Hin.
Qed.

Lemma peak_single_spike (k m : nat) (v : N) :
  peak (repeat 0%N k ++ v :: repeat 0%N m) = v.
Proof.
  assert (Hne : repeat 0%N k ++ v :: repeat 0%N m <> [])
    by (destruct k; discriminate).
  pose proof (peak_attained _ Hne) as Hin.
  pose proof (peak_upper_bound (repeat 0%N k ++ v :: repeat 0%N m)) as Hub.
  rewrite Forall_forall in Hub.
  assert (Hv : (v <= peak (repeat 0%N k ++ v :: repeat 0%N m))%N)
    by (apply Hub, in_or_app; right; now left).
  apply in_app_or in Hin. destruct Hin as [Hin|[Hin|Hin]].
  - apply repeat_spec in Hin. lia.
  - now symmetry.
  - apply repeat_spec in Hin. lia.
Qed.

(** When the analyser holds as many magnitudes as the buffer has cells,
    the buffer becomes exactly those magnitudes. *)
Lemma getByteFrequencyData_same_length (bins array : list N) :
  List.length bins = List.length array ->
  getByteFrequencyData bins array = bins.
Proof.
  intros E. unfold getByteFrequencyData.
  rewrite <- E, firstn_all, E, skipn_all. apply app_nil_r.
Qed.

Lemma of_byte_le (a b : N) : JS.of_byte a <= JS.of_byte b <-> (a <= b)%N.
Proof. unfold JS.of_byte. rewrite <- Zle_Qle. lia. Qed.

(** [getVolume] touches nothing but the buffer. *)
Lemma getVolume_keeps (bins : list N) (p : AudioProcessor.t) :
  let p' := snd (getVolume bins p) in
  AudioProcessor.threshold p' = AudioProcessor.threshold p /\
  isSounding p' = isSounding p /\
  analyser p' = analyser p /\
  audioContext p' = audioContext p /\
  stream p' = stream p.
Proof.
  unfold getVolume.
  destruct (analyser p) eqn:Ea, (dataArray p); simpl; rewrite ?Ea; auto.
Qed.

(** [checkSound] in one equation: the returned flags and the stored state
    as functions of the previous state and the volume just read. *)
Lemma checkSound_eq (bins : list N) (p : AudioProcessor.t) :
  let now := JS.gtb (fst (getVolume bins p)) (AudioProcessor.threshold p) in
  checkSound bins p =
    ({| onset := now && negb (isSounding p);
        offset := negb now && isSounding p;
        sounding := now |},
     with_isSounding now (snd (getVolume bins p))).
Proof.
  unfold checkSound.
  destruct (getVolume_keeps bins p) as (Ht & Hs & _).
  destruct (getVolume bins p) as [volume p1]; simpl in *.
  rewrite Ht, Hs.
  destruct (JS.gtb volume (AudioProcessor.threshold p)), (isSounding p);
    reflexivity.
Qed.

(** C1.  For every state of the detector and every content of the
    analyser, one call to [checkSound] reports [onset] exactly when the
    stored state goes from quiet to sounding in that call, [offset] exactly
    when it goes from sounding to quiet, never both, and the stored and the
    returned [isSounding] are both [volume > threshold]. *)
Theorem checkSound_reports_edges (bins : list N) (p : AudioProcessor.t) :
  let r := fst (checkSound bins p) in
  let p' := snd (checkSound bins p) in
  let volume := fst (getVolume bins p) in
  (onset r = true <-> isSounding p = false /\ isSounding p' = true) /\
  (offset r = true <-> isSounding p = true /\ isSounding p' = false) /\
  onset r && offset r = false /\
  isSounding p' = JS.gtb volume (AudioProcessor.threshold p) /\
  sounding r = isSounding p'.
Proof.
  rewrite checkSound_eq. simpl.
  destruct (JS.gtb _ _), (isSounding p); simpl; intuition congruence.
Qed.

(** The same over a whole sequence of polls: no poll of the sequence
    reports both edges. *)
Lemma checkSound_sequence_exclusive (samples : list (list N))
      (p : AudioProcessor.t) :
  Forall (fun r => onset r && offset r = false)
    (snd (fold_left
            (fun '(q, rs) bins =>
               (snd (checkSound bins q), rs ++ [fst (checkSound bins q)]))
            samples (p, []))).
Proof.
  assert (G : forall rs q,
             Forall (fun r => onset r && offset r = false) rs ->
             Forall (fun r => onset r && offset r = false)
               (snd (fold_left
                       (fun '(q, rs) bins =>
                          (snd (checkSound bins q),
                           rs ++ [fst (checkSound bins q)]))
                       samples (q, rs)))).
  { induction samples as [|bins samples IH]; intros rs q Hrs; simpl.
    - exact Hrs.
    - apply IH. apply Forall_app. split; [exact Hrs|].
      constructor; [|constructor].
      rewrite checkSound_eq. simpl.
      destruct (JS.gtb _ _), (isSounding q); reflexivity. }
  apply G. constructor.
Qed.

(** C9.  With the analyser's content fixed, hence the volume reading [V]
    fixed, the poll that follows [setThreshold t] reports sounding exactly
    when [t < V] and quiet exactly when [V <= t]; [setThreshold] stores any
    value as it is; the classification is antitone in the threshold. *)
Theorem threshold_decides_sounding (bins : list N) (p : AudioProcessor.t)
        (t : number) :
  let V := fst (getVolume bins p) in
  let polled t := sounding (fst (checkSound bins (setThreshold t p))) in
  AudioProcessor.threshold (setThreshold t p) = t /\
  fst (getVolume bins (setThreshold t p)) = V /\
  (polled t = false <-> V <= t) /\
  (polled t = true <-> t < V) /\
  (forall t', t <= t' -> polled t' = true -> polled t = true).
Proof.
  assert (HV : forall u, fst (getVolume bins (setThreshold u p))
                         = fst (getVolume bins p)).
  { intros u. unfold getVolume, setThreshold; simpl.
    destruct (analyser p), (dataArray p); reflexivity. }
  assert (Hp : forall u, sounding (fst (checkSound bins (setThreshold u p)))
                         = JS.gtb (fst (getVolume bins p)) u).
  { intros u. rewrite checkSound_eq. simpl. now rewrite HV. }
  cbv zeta. repeat split.
  - apply HV.
  - rewrite Hp. apply gtb_false.
  - rewrite Hp. intros H. now apply gtb_false.
  - rewrite Hp. apply gtb_true.
  - rewrite Hp. intros H. now apply gtb_true.
  - intros t' Hle. rewrite !Hp, !gtb_true. intros H.
    eapply Qle_lt_trans; eassumption.
Qed.

(** C8.  With an analyser and a buffer in place, [getVolume] returns the
    largest cell of the buffer as the analyser has just filled it: no cell
    exceeds the result and, the buffer not being empty, some cell equals
    it.  A buffer with one cell at 90 and zeros elsewhere gives 90,
    wherever the cell is. *)
Theorem getVolume_returns_peak (bins : list N) (p : AudioProcessor.t)
        (a : AnalyserNode) (array : list N) :
  analyser p = Some a ->
  dataArray p = Some array ->
  let window := getByteFrequencyData bins array in
  let volume := fst (getVolume bins p) in
  dataArray (snd (getVolume bins p)) = Some window /\
  Forall (fun x => JS.of_byte x <= volume) window /\
  (window <> [] -> exists x, In x window /\ volume = JS.of_byte x) /\
  (forall k m : nat,
      window = repeat 0%N k ++ 90%N :: repeat 0%N m -> volume = 90).
Proof.
  intros Ha Hd. unfold getVolume. rewrite Ha, Hd. simpl. repeat split.
  - pose proof (peak_upper_bound (getByteFrequencyData bins array)) as H.
    rewrite Forall_forall in *. intros x Hx. apply of_byte_le. auto.
  - intros Hne. exists (peak (getByteFrequencyData bins array)).
    split; [now apply peak_attained | reflexivity].
  - intros k m ->. now rewrite peak_single_spike.
Qed.

Lemma getVolume_returns_peak_witness :
  fst (getVolume spike started) = 90.
Proof.
  refine (proj2 (proj2 (proj2
    (getVolume_returns_peak spike started
       {| fftSize := 256 |} (repeat 0%N 128) eq_refl eq_refl))) 5%nat 122%nat _).
  reflexivity.
Defined.

(** [stop] leaves the analyser and the buffer where they are, so the
    guard of [getVolume] does not fire on a stopped processor. *)
Lemma stop_keeps_analyser (p : AudioProcessor.t) :
  analyser (stop p) = analyser p /\
  dataArray (stop p) = dataArray p /\
  AudioProcessor.threshold (stop p) = AudioProcessor.threshold p /\
  isSounding (stop p) = isSounding p /\
  sessionActive (stop p) = false.
Proof.
  unfold stop, sessionActive; simpl.
  destruct (stream p), (audioContext p); auto.
Qed.

Lemma getVolume_after_stop (bins : list N) (p : AudioProcessor.t) :
  fst (getVolume bins (stop p)) = fst (getVolume bins p).
Proof.
  unfold getVolume.
  destruct (stop_keeps_analyser p) as (-> & -> & _).
  destruct (analyser p), (dataArray p); reflexivity.
Qed.

(** C6, as stated, fails twice.  A processor that was never started and
    whose threshold is negative has no session, yet [checkSound] reports
    sounding, because [0 > -1].  A processor that was started and then
    stopped has no session either, yet [getVolume] still reads the
    analyser and returns the peak of what it holds, here 90. *)
Lemma no_session_not_always_quiet :
  sessionActive (setThreshold (-1) AudioProcessor.new) = false /\
  fst (getVolume spike (setThreshold (-1) AudioProcessor.new)) = 0 /\
  sounding (fst (checkSound spike (setThreshold (-1) AudioProcessor.new)))
    = true /\
  sessionActive (stop started) = false /\
  fst (getVolume spike (stop started)) = 90 /\
  sounding (fst (checkSound spike (stop started))) = true.
Proof. repeat split. Qed.

(** C6, amended.  When the analyser or the buffer is absent, which is the
    case of a processor that was never started, [getVolume] returns 0 and
    changes nothing, and [checkSound] reports [0 > threshold]: quiet for
    every threshold that is not negative, the default 30 included. *)
Theorem no_analyser_degrades (bins : list N) (p : AudioProcessor.t) :
  analyser p = None \/ dataArray p = None ->
  getVolume bins p = (0, p) /\
  sounding (fst (checkSound bins p)) = JS.gtb 0 (AudioProcessor.threshold p) /\
  (0 <= AudioProcessor.threshold p ->
   sounding (fst (checkSound bins p)) = false /\
   isSounding (snd (checkSound bins p)) = false /\
   onset (fst (checkSound bins p)) = false) /\
  (forall t, analyser (setThreshold t p) = None \/
             dataArray (setThreshold t p) = None).
Proof.
  intros Hnone.
  assert (Hv : getVolume bins p = (0, p)).
  { unfold getVolume. destruct Hnone as [-> | Hd]; [reflexivity|].
    rewrite Hd. now destruct (analyser p). }
  split; [exact Hv|]. rewrite checkSound_eq, Hv. simpl.
  split; [reflexivity|]. split.
  - intros Hth. apply gtb_false in Hth. rewrite Hth. auto.
  - intros t. exact Hnone.
Qed.

Lemma no_analyser_degrades_witness :
  getVolume spike AudioProcessor.new = (0, AudioProcessor.new) /\
  sounding (fst (checkSound spike AudioProcessor.new)) = false.
Proof.
  pose proof (no_analyser_degrades spike AudioProcessor.new (or_introl eq_refl))
    as (Hv & _ & Hq & _).
  split; [exact Hv|]. apply Hq. simpl. discriminate.
Defined.

(** ** Starting a run *)

(** C7.  From any world, [startGame] does one of two things.  With the
    microphone flag off it shows the dialog and changes nothing else.
    With the flag on it empties the obstacle list, puts the player on the
    ground at rest and not jumping, zeroes the run time, the spawn timer
    and the sound counter (the ref and the displayed count), and sets the
    run to [playing] on the chosen level.  The flag is the component's
    record of the microphone session: [micEnabled_tracks_session] below
    shows that it is on exactly when the session is live. *)
Theorem startGame_rejects_or_resets (level : LevelConfig) (w : World) :
  (micEnabled w = false /\
   sameGame w (startGame level w) /\
   alerts (startGame level w) =
     "Por favor, activa el micrófono antes de empezar."%string :: alerts w)
  \/
  (micEnabled w = true /\
   obstaclesRef (startGame level w) = [] /\
   y (playerRef (startGame level w)) = GROUND_Y - PLAYER_SIZE /\
   vy (playerRef (startGame level w)) = 0 /\
   isJumping (playerRef (startGame level w)) = false /\
   gameTimeRef (startGame level w) = 0 /\
   lastObstacleTime (startGame level w) = 0 /\
   soundsCountRef (startGame level w) = 0 /\
   soundsDetected (gameState (startGame level w)) = 0 /\
   currentLevel (gameState (startGame level w)) = Some level /\
   status (gameState (startGame level w)) = playing /\
   alerts (startGame level w) = alerts w).
Proof.
  unfold startGame. destruct (micEnabled w); simpl.
  - right. repeat split.
  - left. repeat split.
Qed.

(** ** The shape of a frame *)

(** [checkSound] and [getVolume] leave the session as it is. *)
Lemma checkSound_keeps_session (bins : list N) (p : AudioProcessor.t) :
  sessionActive (snd (checkSound bins p)) = sessionActive p.
Proof.
  rewrite checkSound_eq. simpl.
  destruct (getVolume_keeps bins p) as (_ & _ & _ & Hc & Hs).
  unfold sessionActive; simpl. now rewrite Hc, Hs.
Qed.

Lemma getVolume_keeps_session (bins : list N) (p : AudioProcessor.t) :
  sessionActive (snd (getVolume bins p)) = sessionActive p.
Proof.
  destruct (getVolume_keeps bins p) as (_ & _ & _ & Hc & Hs).
  unfold sessionActive. now rewrite Hc, Hs.
Qed.

(** The audio block in one equation per case. *)
Lemma audioDetection_none (f : Frame) (w : World) :
  audioProcessorRef w = None -> audioDetection f w = (false, w).
Proof. unfold audioDetection. now intros ->. Qed.

Lemma audioDetection_some (f : Frame) (w : World) (ap : AudioProcessor.t) :
  audioProcessorRef w = Some ap ->
  let r := fst (checkSound (binsCheck f) ap) in
  let ap' := snd (getVolume (binsVolume f) (snd (checkSound (binsCheck f) ap))) in
  let w' := set_audioProcessorRef (Some ap') w in
  audioDetection f w = (sounding r, if onset r then onOnset w' else w').
Proof.
  unfold audioDetection. intros ->.
  destruct (checkSound (binsCheck f) ap) as [r ap1]; simpl.
  destruct (getVolume (binsVolume f) ap1) as [v ap2]; reflexivity.
Qed.

(** The three ways through [gameLoop]: the guards return at once; the
    clock runs out; the frame is played. *)
Lemma gameLoop_cases (f : Frame) (w : World) :
  ((is_playing (status (gameState w)) = false \/
    canvasMounted f = false \/
    currentLevel (gameState w) = None \/
    context2d f = false) /\
   gameLoop f w = w) \/
  exists level,
    status (gameState w) = playing /\
    currentLevel (gameState w) = Some level /\
    canvasMounted f = true /\ context2d f = true /\
    ((duration level <= gameTimeRef w + dt / 1000 /\
      gameLoop f w =
        setGameState
          (with_status
             (if JS.geb (soundsCountRef w) (requiredSounds level)
              then win else gameover))
          (set_gameTimeRef (gameTimeRef w + dt / 1000) w))
     \/
     (gameTimeRef w + dt / 1000 < duration level /\
      gameLoop f w =
        playFrame level f (set_gameTimeRef (gameTimeRef w + dt / 1000) w))).
Proof.
  unfold gameLoop.
  destruct (status (gameState w)) eqn:Es; simpl; auto.
  destruct (canvasMounted f) eqn:Ec; simpl; auto.
  destruct (currentLevel (gameState w)) as [level|] eqn:El; auto 6.
  destruct (context2d f) eqn:Ex; simpl; auto 6.
  right. exists level. repeat split.
  destruct (JS.strict_eqb _ 0) eqn:E0.
  - left. split; [|reflexivity].
    apply strict_eqb_true in E0. unfold JS.max in E0.
    apply Q.max_l_iff in E0. lra.
  - right. split; [|reflexivity].
    destruct (Qlt_le_dec (gameTimeRef w + dt / 1000) (duration level))
      as [Hlt|Hle]; [exact Hlt|].
    assert (E1 : JS.strict_eqb
                   (JS.max 0 (duration level - (gameTimeRef w + dt / 1000))) 0
                 = true).
    { apply strict_eqb_true. unfold JS.max. apply Q.max_l_iff. lra. }
    congruence.
Qed.

(** What the audio block does to the player, the processor and the flags. *)
Lemma audioDetection_effect (f : Frame) (w : World) :
  let s := fst (audioDetection f w) in
  let w' := snd (audioDetection f w) in
  (playerRef w' = playerRef w /\ soundsCountRef w' = soundsCountRef w \/
   s = true /\
   playerRef w' = {| y := y (playerRef w); vy := JUMP_FORCE;
                     isJumping := true; hoverTime := Some 0 |} /\
   soundsCountRef w' = soundsCountRef w + 1) /\
  micEnabled w' = micEnabled w /\
  micSession w' = micSession w /\
  obstaclesRef w' = obstaclesRef w /\
  canvas w' = canvas w /\
  status (gameState w') = status (gameState w) /\
  currentLevel (gameState w') = currentLevel (gameState w) /\
  gameTimeRef w' = gameTimeRef w.
Proof.
  destruct (audioProcessorRef w) as [ap|] eqn:Ea.
  - rewrite (audioDetection_some f w ap Ea). simpl.
    assert (Hs : forall b,
               sessionActive
                 (snd (getVolume (binsVolume f)
                         (with_isSounding b
                            (snd (getVolume (binsCheck f) ap)))))
               = sessionActive ap).
    { intros b. rewrite getVolume_keeps_session.
      rewrite <- (getVolume_keeps_session (binsCheck f) ap). reflexivity. }
    rewrite checkSound_eq. simpl.
    destruct (JS.gtb _ _), (isSounding ap); simpl;
      unfold micSession; simpl; rewrite ?Ea, ?Hs;
      repeat split; auto.
  - rewrite (audioDetection_none f w Ea). simpl. repeat split; auto.
Qed.

Lemma obstacleGeneration_effect (level : LevelConfig) (f : Frame) (w : World) :
  let w' := obstacleGeneration level f w in
  playerRef w' = playerRef w /\
  micEnabled w' = micEnabled w /\
  audioProcessorRef w' = audioProcessorRef w /\
  canvas w' = canvas w /\
  gameState w' = gameState w /\
  gameTimeRef w' = gameTimeRef w /\
  soundsCountRef w' = soundsCountRef w.
Proof.
  unfold obstacleGeneration.
  destruct (JS.gtb_quotient _ _); simpl; auto 10.
  destruct (JS.gtb (random1 f) _); simpl; auto 10.
Qed.

(** The player a frame leaves behind: the one it found, or the physics
    step applied to the one the audio block produced. *)
Lemma playFrame_player (level : LevelConfig) (f : Frame) (w : World) :
  playerRef (playFrame level f w) =
    physics (fst (audioDetection f w)) (playerRef (snd (audioDetection f w))).
Proof.
  unfold playFrame, advance.
  destruct (audioDetection f w) as [s wa]; simpl.
  set (wp := set_playerRef _ wa).
  destruct (obstacleGeneration_effect level f wp) as (Hp & _).
  destruct (collisionDetection _ _); simpl; rewrite Hp; reflexivity.
Qed.

Lemma playFrame_session (level : LevelConfig) (f : Frame) (w : World) :
  micEnabled (playFrame level f w) = micEnabled w /\
  micSession (playFrame level f w) = micSession w.
Proof.
  unfold playFrame, advance.
  destruct (audioDetection_effect f w) as (_ & Hm & Hs & _).
  destruct (audioDetection f w) as [s wa]; simpl in *.
  set (wp := set_playerRef _ wa).
  destruct (obstacleGeneration_effect level f wp) as (_ & Hm' & Ha' & _).
  unfold micSession in *.
  destruct (collisionDetection _ _); simpl; rewrite Hm', Ha'; simpl; auto.
Qed.

Lemma playFrame_count (level : LevelConfig) (f : Frame) (w : World) :
  soundsCountRef (playFrame level f w) =
    soundsCountRef (snd (audioDetection f w)).
Proof.
  unfold playFrame, advance.
  destruct (audioDetection f w) as [s wa]; simpl.
  set (wp := set_playerRef _ wa).
  destruct (obstacleGeneration_effect level f wp) as (_ & _ & _ & _ & _ & _ & Hn).
  destruct (collisionDetection _ _); simpl; rewrite Hn; reflexivity.
Qed.

Lemma gameLoop_player (f : Frame) (w : World) :
  (playerRef (gameLoop f w) = playerRef w /\
   soundsCountRef (gameLoop f w) = soundsCountRef w) \/
  exists s,
    (playerRef (gameLoop f w) = physics s (playerRef w) /\
     soundsCountRef (gameLoop f w) = soundsCountRef w) \/
    (playerRef (gameLoop f w) =
       physics true {| y := y (playerRef w); vy := JUMP_FORCE;
                       isJumping := true; hoverTime := Some 0 |} /\
     soundsCountRef (gameLoop f w) = soundsCountRef w + 1).
Proof.
  destruct (gameLoop_cases f w)
    as [[_ ->]|(level & _ & _ & _ & _ & [[_ ->]|[_ ->]])];
    auto.
  right. rewrite playFrame_player, playFrame_count.
  set (w' := set_gameTimeRef _ w).
  destruct (audioDetection_effect f w') as ([[Hp Hn]|(Hs & Hp & Hn)] & _);
    exists (fst (audioDetection f w')); rewrite Hp, Hn; [left|right]; auto.
  rewrite Hs. auto.
Qed.

(** A played frame leaves the clock and the level alone, and either
    keeps the run state or ends the run by a collision. *)
Lemma playFrame_state (level : LevelConfig) (f : Frame) (w : World) :
  gameTimeRef (playFrame level f w) = gameTimeRef w /\
  currentLevel (gameState (playFrame level f w)) = currentLevel (gameState w) /\
  (status (gameState (playFrame level f w)) = status (gameState w) \/
   status (gameState (playFrame level f w)) = gameover).
Proof.
  unfold playFrame, advance.
  destruct (audioDetection_effect f w) as (_ & _ & _ & _ & _ & Hs & Hl & Ht).
  destruct (audioDetection f w) as [s wa]; simpl in *.
  set (wp := set_playerRef _ wa).
  destruct (obstacleGeneration_effect level f wp)
    as (_ & _ & _ & _ & Hg & Ht' & _).
  destruct (collisionDetection _ _); simpl; rewrite Hg, Ht'; simpl; auto.
Qed.

(** A played frame in which the analyser is louder than the threshold:
    the physics step runs as sounding, on the player the frame found when
    the detector was already sounding, and on the player launched by the
    onset when it was quiet. *)
Lemma sounding_frame_player (f : Frame) (w : World) (level : LevelConfig)
      (ap : AudioProcessor.t) :
  status (gameState w) = playing ->
  currentLevel (gameState w) = Some level ->
  canvasMounted f = true ->
  context2d f = true ->
  gameTimeRef w + dt / 1000 < duration level ->
  audioProcessorRef w = Some ap ->
  AudioProcessor.threshold ap < fst (getVolume (binsCheck f) ap) ->
  playerRef (gameLoop f w) =
    physics true
      (if isSounding ap then playerRef w
       else {| y := y (playerRef w); vy := JUMP_FORCE; isJumping := true;
               hoverTime := Some 0 |}).
Proof.
  intros Hs Hl Hc Hx Ht Ha Hv.
  destruct (gameLoop_cases f w)
    as [[Hg _]|(level' & _ & Hl' & _ & _ & [[Hd _]|[_ ->]])].
  - rewrite Hs, Hc, Hl, Hx in Hg. simpl in Hg.
    destruct Hg as [Hg|[Hg|[Hg|Hg]]]; discriminate.
  - rewrite Hl in Hl'. injection Hl' as <-. lra.
  - rewrite playFrame_player.
    set (w' := set_gameTimeRef _ w).
    rewrite (audioDetection_some f w' ap Ha). rewrite checkSound_eq.
    apply gtb_true in Hv. rewrite Hv. simpl.
    destruct (isSounding ap); reflexivity.
Qed.

(** ** Invariants of runs and of the component *)

Section Invariants.

Variable P : World -> Prop.

(** What every frame preserves holds all along a run. *)
Lemma run_invariant :
  (forall f w, P w -> P (gameLoop f w)) ->
  forall frames w, P w -> P (run frames w).
Proof.
  intros Hstep frames. unfold run.
  induction frames as [|f frames IH]; intros w Hw; simpl; auto.
Qed.

(** What holds when the component is mounted and is preserved by every
    event holds in every world the component can reach. *)
Lemma after_invariant :
  P initial ->
  (forall w e, P w -> P (handle w e)) ->
  forall events, P (after events).
Proof.
  intros Hinit Hstep events. unfold after.
  generalize initial Hinit.
  induction events as [|e events IH]; intros w Hw; simpl; auto.
Qed.

End Invariants.

Section PlayerInvariants.

(** A property of the player alone, true of the player [startGame] sets
    and preserved by a frame. *)
Variable I : Player -> Prop.

Hypothesis I_reset :
  I {| y := GROUND_Y - PLAYER_SIZE; vy := 0; isJumping := false;
       hoverTime := None |}.

Hypothesis I_frame :
  forall f w, I (playerRef w) -> I (playerRef (gameLoop f w)).

Lemma handle_player_invariant (w : World) (e : Event) :
  I (playerRef w) -> I (playerRef (handle w e)).
Proof.
  intros Hw. destruct e; simpl.
  - unfold toggleMic. destruct (micEnabled w); simpl; [exact Hw|].
    destruct granted; simpl; exact Hw.
  - unfold changeThreshold.
    destruct (JS.strict_eqb v (App.threshold w)); [exact Hw|]. simpl.
    destruct (audioProcessorRef w); exact Hw.
  - exact Hw.
  - unfold startGame. destruct (micEnabled w); simpl; [exact I_reset|exact Hw].
  - exact Hw.
  - apply I_frame, Hw.
Qed.

Lemma after_player_invariant (events : list Event) :
  I (playerRef initial) -> I (playerRef (after events)).
Proof.
  intros Hinit.
  apply (after_invariant (fun w => I (playerRef w)) Hinit).
  intros w e. apply handle_player_invariant.
Qed.

Lemma run_player_invariant (level : LevelConfig) (w : World)
      (frames : list Frame) :
  micEnabled w = true -> I (playerRef (run frames (startGame level w))).
Proof.
  intros Hmic.
  apply (run_invariant (fun w => I (playerRef w)) I_frame).
  unfold startGame. rewrite Hmic. exact I_reset.
Qed.

End PlayerInvariants.

(** The microphone flag is the component's record of the session: in
    every world the component can reach, the flag is on exactly when the
    processor it holds has a live session. *)
Lemma micEnabled_tracks_session (events : list Event) :
  micEnabled (after events) = micSession (after events).
Proof.
  apply (after_invariant (fun w => micEnabled w = micSession w));
    [reflexivity|].
  intros w e Hw. destruct e; simpl.
  - unfold toggleMic. destruct (micEnabled w) eqn:Em; simpl.
    + unfold micSession; simpl.
      destruct (audioProcessorRef w) as [ap|]; simpl; [|reflexivity].
      symmetry. apply stop_keeps_analyser.
    + destruct granted; simpl; [reflexivity|].
      unfold micSession in *; simpl. rewrite Em.
      destruct (audioProcessorRef w); [exact Hw | reflexivity].
  - unfold changeThreshold, micSession in *.
    destruct (JS.strict_eqb v (App.threshold w)); [exact Hw|]. simpl.
    destruct (audioProcessorRef w) eqn:Ea; simpl; rewrite ?Ea; exact Hw.
  - exact Hw.
  - unfold startGame. destruct (micEnabled w) eqn:Em; simpl;
      rewrite ?Em; exact Hw.
  - exact Hw.
  - destruct (gameLoop_cases f w)
      as [[_ ->]|(level & _ & _ & _ & _ & [[_ ->]|[_ ->]])];
      [exact Hw | exact Hw |].
    destruct (playFrame_session level f
                (set_gameTimeRef (gameTimeRef w + dt / 1000) w)) as (-> & ->).
    exact Hw.
Qed.

(** ** The end of the clock *)

Lemma timeLeft_zero (d elapsed : number) :
  JS.strict_eqb (JS.max 0 (d - elapsed)) 0 = true <-> d <= elapsed.
Proof.
  rewrite strict_eqb_true. unfold JS.max. rewrite Q.max_l_iff. split; lra.
Qed.

(** C2.  In a frame that passes the guards, when [max(0, duration -
    elapsed)] is 0 after the clock has been advanced, that is, when the
    elapsed time has reached the duration, the run becomes [win] if the
    counted onsets are at least [requiredSounds] and [gameover] otherwise,
    and the frame ends there: the processor is not polled, the player, the
    obstacles, the spawn timer and the counter stay as they were, and
    nothing is painted.  With a duration of 120 and 10 required sounds, 10
    counted onsets give [win] and 9 give [gameover]. *)
Theorem time_up_settles_run (f : Frame) (w : World) (level : LevelConfig) :
  status (gameState w) = playing ->
  currentLevel (gameState w) = Some level ->
  canvasMounted f = true ->
  context2d f = true ->
  JS.max 0 (duration level - (gameTimeRef w + dt / 1000)) == 0 ->
  duration level <= gameTimeRef w + dt / 1000 /\
  gameLoop f w =
    setGameState
      (with_status
         (if JS.geb (soundsCountRef w) (requiredSounds level)
          then win else gameover))
      (set_gameTimeRef (gameTimeRef w + dt / 1000) w) /\
  (status (gameState (gameLoop f w)) = win <->
   requiredSounds level <= soundsCountRef w) /\
  (status (gameState (gameLoop f w)) = gameover <->
   soundsCountRef w < requiredSounds level) /\
  gameTimeRef (gameLoop f w) = gameTimeRef w + dt / 1000 /\
  audioProcessorRef (gameLoop f w) = audioProcessorRef w /\
  playerRef (gameLoop f w) = playerRef w /\
  obstaclesRef (gameLoop f w) = obstaclesRef w /\
  lastObstacleTime (gameLoop f w) = lastObstacleTime w /\
  soundsCountRef (gameLoop f w) = soundsCountRef w /\
  canvas (gameLoop f w) = canvas w /\
  alerts (gameLoop f w) = alerts w /\
  (duration level == 120 -> requiredSounds level == 10 ->
   (soundsCountRef w == 10 -> status (gameState (gameLoop f w)) = win) /\
   (soundsCountRef w == 9 -> status (gameState (gameLoop f w)) = gameover)).
Proof.
  intros Hs Hl Hc Hx H0.
  apply strict_eqb_true in H0.
  assert (Hd := proj1 (timeLeft_zero _ _) H0).
  unfold gameLoop. rewrite Hs, Hc, Hl, Hx. simpl. rewrite H0.
  unfold setGameState; simpl.
  destruct (JS.geb (soundsCountRef w) (requiredSounds level)) eqn:Eg;
    [apply geb_true in Eg | apply geb_false in Eg];
    repeat split; try reflexivity; try discriminate; try assumption;
    intros; try lra; exfalso; lra.
Qed.

Lemma time_up_settles_run_witness :
  status (gameState (gameLoop (quietFrame 120000) (lastInstant 10))) = win /\
  status (gameState (gameLoop (quietFrame 120000) (lastInstant 9))) = gameover.
Proof.
  split.
  - apply (time_up_settles_run (quietFrame 120000) (lastInstant 10) level1
             eq_refl eq_refl eq_refl eq_refl); reflexivity.
  - apply (time_up_settles_run (quietFrame 120000) (lastInstant 9) level1
             eq_refl eq_refl eq_refl eq_refl); reflexivity.
Defined.

(** The clock of a run: as long as the run is still [playing] after a
    list of frames delivered with the canvas in place, every one of them
    was played, the clock has advanced by one timestep per frame, and it
    has not reached the duration. *)
Lemma run_clock (frames : list Frame) (w : World) (level : LevelConfig) :
  Forall (fun f => canvasMounted f = true /\ context2d f = true) frames ->
  currentLevel (gameState w) = Some level ->
  status (gameState (run frames w)) = playing ->
  status (gameState w) = playing /\
  gameTimeRef (run frames w) ==
    gameTimeRef w + inject_Z (Z.of_nat (List.length frames)) * (dt / 1000) /\
  (frames <> [] -> gameTimeRef (run frames w) < duration level).
Proof.
  unfold run. intros Hall. revert w.
  induction Hall as [|f frames [Hc Hx] Hall IH]; intros w Hl Hend; simpl in *.
  - split; [exact Hend|]. split; [|congruence].
    change (inject_Z 0) with 0. lra.
  - destruct (gameLoop_cases f w)
      as [[Hg Hskip]|(level' & Hs & Hl' & _ & _ & [[_ Hup]|[Hlt Hplay]])].
    + rewrite Hskip in *. destruct (IH w Hl Hend) as (Hs & _).
      rewrite Hs, Hc, Hl, Hx in Hg. simpl in Hg.
      destruct Hg as [Hg|[Hg|[Hg|Hg]]]; discriminate.
    + exfalso.
      assert (Hl2 : currentLevel (gameState (gameLoop f w)) = Some level)
        by (rewrite Hup; exact Hl).
      destruct (IH _ Hl2 Hend) as (Hs2 & _).
      rewrite Hup in Hs2. simpl in Hs2.
      destruct (JS.geb _ _); discriminate.
    + rewrite Hl in Hl'. injection Hl' as <-.
      destruct (playFrame_state level f
                  (set_gameTimeRef (gameTimeRef w + dt / 1000) w))
        as (Ht & Hl2 & _).
      rewrite <- Hplay in Ht, Hl2. simpl in Ht, Hl2.
      destruct (IH _ (eq_trans Hl2 Hl) Hend) as (_ & Hclock & Hbelow).
      split; [exact Hs|]. split.
      * rewrite Hclock, Ht.
        rewrite Zpos_P_of_succ_nat. unfold Z.succ. rewrite inject_Z_plus.
        change (inject_Z 1) with 1. lra.
      * intros _. destruct frames as [|f' frames'].
        -- simpl. rewrite Ht. exact Hlt.
        -- apply Hbelow. discriminate.
Qed.

(** A run of level 1 cannot outlast 7199 frames: 7198 timesteps fall
    short of the 120 seconds, 7199 exceed them. *)
Lemma run_of_level1_ends (frames : list Frame) (w : World) :
  Forall (fun f => canvasMounted f = true /\ context2d f = true) frames ->
  micEnabled w = true ->
  (7199 <= Z.of_nat (List.length frames))%Z ->
  inject_Z 7198 * (dt / 1000) < duration level1 /\
  duration level1 <= inject_Z 7199 * (dt / 1000) /\
  status (gameState (run frames (startGame level1 w))) <> playing.
Proof.
  intros Hall Hmic Hlen.
  split; [reflexivity|]. split; [discriminate|].
  intros Hplay.
  assert (Hstart : currentLevel (gameState (startGame level1 w)) = Some level1
                   /\ gameTimeRef (startGame level1 w) = 0).
  { unfold startGame. rewrite Hmic. simpl. auto. }
  destruct Hstart as (Hl & H0).
  destruct (run_clock frames _ level1 Hall Hl Hplay) as (_ & Hclock & Hbelow).
  assert (Hne : frames <> []) by (destruct frames; simpl in Hlen; [lia|discriminate]).
  specialize (Hbelow Hne). rewrite Hclock, H0 in Hbelow.
  assert (Hn : inject_Z 7199 <= inject_Z (Z.of_nat (List.length frames)))
    by (rewrite <- Zle_Qle; exact Hlen).
  assert (Hd : duration level1 == 120) by reflexivity.
  assert (Hk : dt / 1000 == 0.01667) by reflexivity.
  rewrite Hd, Hk in Hbelow.
  set (n := inject_Z (Z.of_nat (List.length frames))) in *.
  change (inject_Z 7199) with 7199 in Hn. lra.
Qed.

(** ** Jump and hover *)

(** The clamps never touch the hover timer and never raise the jumping
    flag. *)
Lemma boundaryChecks_keeps (p : Player) :
  hoverTime (boundaryChecks p) = hoverTime p /\
  (isJumping p = false -> isJumping (boundaryChecks p) = false).
Proof.
  unfold boundaryChecks, ceilingCheck, groundCheck.
  destruct (JS.gtb (y p) _); cbn [y]; [split; reflexivity|].
  destruct (JS.ltb (y p) 0); simpl; auto.
Qed.

(** The two branches of the hover test, by their conditions. *)
Lemma jumpHover_hover (s : bool) (p : Player) (h : number) :
  s = true -> isJumping p = true -> hoverTime p = Some h -> h < 2 ->
  jumpHover s p =
    {| y := y p; vy := JS.min (vy p) 1.0; isJumping := true;
       hoverTime := Some (h + dt / 1000) |}.
Proof.
  intros -> Hj Hh Hlt. unfold jumpHover. rewrite Hj, Hh. simpl.
  apply ltb_true in Hlt. now rewrite Hlt.
Qed.

Lemma jumpHover_gravity (s : bool) (p : Player) :
  s = false \/ isJumping p = false \/ hoverTime p = None \/
  (exists h, hoverTime p = Some h /\ 2 <= h) ->
  jumpHover s p =
    {| y := y p; vy := vy p + GRAVITY; isJumping := isJumping p;
       hoverTime := hoverTime p |}.
Proof.
  unfold jumpHover. intros [-> | [-> | [-> | (h & -> & Hge)]]].
  - reflexivity.
  - now rewrite andb_false_r.
  - simpl. now destruct (s && isJumping p).
  - simpl. apply ltb_false in Hge. rewrite Hge. now destruct (s && isJumping p).
Qed.

(** Frames of sustained sound, counted from a player whose hover timer
    reads [h0]: as long as the player is still jumping and the budget is
    not used up, the timer reads [h0] plus one timestep per frame. *)
Lemma sustained_hover_timer (p0 : Player) (h0 : number) (n : nat) :
  hoverTime p0 = Some h0 ->
  let p := Nat.iter n (physics true) p0 in
  isJumping p = false \/
  exists h, hoverTime p = Some h /\
            (2 <= h \/ h == h0 + inject_Z (Z.of_nat n) * (dt / 1000)).
Proof.
  intros H0. induction n as [|n IH]; cbv zeta.
  - right. exists h0. split; [exact H0|]. right.
    change (inject_Z (Z.of_nat 0)) with 0. lra.
  - cbv zeta in IH. rewrite Nat.iter_succ.
    set (p := Nat.iter n (physics true) p0) in *.
    unfold physics.
    destruct (boundaryChecks_keeps (integrate (jumpHover true p)))
      as (Hh & Hj).
    rewrite Hh.
    destruct IH as [Hnj | (h & Hp & Hcase)].
    + left. apply Hj. rewrite jumpHover_gravity by auto. exact Hnj.
    + destruct (isJumping p) eqn:Ej.
      * destruct (Qlt_le_dec h 2) as [Hlt|Hge].
        -- right. rewrite (jumpHover_hover true p h) by auto.
           cbn [integrate hoverTime].
           exists (h + dt / 1000). split; [reflexivity|].
           destruct Hcase as [Hbad|Heq]; [lra|]. right.
           rewrite Nat2Z.inj_succ. unfold Z.succ. rewrite inject_Z_plus.
           change (inject_Z 1) with 1. lra.
        -- right. rewrite jumpHover_gravity by eauto 6.
           cbn [integrate hoverTime].
           exists h. auto.
      * left. apply Hj. rewrite jumpHover_gravity by auto. exact Ej.
Qed.

(** C3.  The physics step of a frame: when the frame is sounding, the
    player is jumping and the hover timer is below 2.0, the velocity
    becomes [min(vy, 1.0)] and the timer grows by the timestep; in every
    other case, quiet, not jumping, or the timer at 2.0 or more (or
    absent), gravity is added to the velocity and the timer stays.  Hence,
    counting from a timer that is not negative, such as the zero an onset
    sets, once sound has been sustained for [n] frames that add up to 2.0
    seconds or more, every further sounding frame adds gravity. *)
Theorem hover_or_gravity (s : bool) (p : Player) :
  (forall h, s = true -> isJumping p = true -> hoverTime p = Some h ->
             h < 2 ->
             vy (jumpHover s p) = JS.min (vy p) 1.0 /\
             hoverTime (jumpHover s p) = Some (h + dt / 1000)) /\
  (s = false \/ isJumping p = false \/ hoverTime p = None \/
   (exists h, hoverTime p = Some h /\ 2 <= h) ->
   vy (jumpHover s p) = vy p + GRAVITY /\
   hoverTime (jumpHover s p) = hoverTime p) /\
  y (jumpHover s p) = y p /\
  isJumping (jumpHover s p) = isJumping p /\
  (forall (h0 : number) (n : nat),
      hoverTime p = Some h0 -> 0 <= h0 ->
      2 <= inject_Z (Z.of_nat n) * (dt / 1000) ->
      vy (jumpHover true (Nat.iter n (physics true) p)) =
        vy (Nat.iter n (physics true) p) + GRAVITY).
Proof.
  repeat split.
  - now rewrite (jumpHover_hover s p h).
  - now rewrite (jumpHover_hover s p h).
  - now rewrite jumpHover_gravity.
  - now rewrite jumpHover_gravity.
  - unfold jumpHover. destruct (s && isJumping p); [|reflexivity].
    now destruct (JS.ltb_undef _ _).
  - unfold jumpHover. destruct (s && isJumping p) eqn:E; [|reflexivity].
    now destruct (JS.ltb_undef _ _).
  - intros h0 n H0 Hpos Hn.
    rewrite jumpHover_gravity; [reflexivity|].
    destruct (sustained_hover_timer p h0 n H0) as [Hnj|(h & Hh & Hcase)].
    + auto.
    + right. right. right. exists h. split; [exact Hh|].
      destruct Hcase as [Hge|Heq]; [exact Hge | lra].
Qed.

(** A note held from a standing start: the player rises to the ceiling
    and hovers there; after 119 sounding frames the timer is still below
    2.0, after 120 it is not, and the next frame adds gravity. *)
Example held_note_hover_budget :
  JS.ltb_undef (hoverTime (Nat.iter 119 (physics true) launched)) 2 = true /\
  JS.ltb_undef (hoverTime (Nat.iter 120 (physics true) launched)) 2 = false /\
  isJumping (Nat.iter 120 (physics true) launched) = true /\
  y (Nat.iter 120 (physics true) launched) == 0 /\
  vy (Nat.iter 120 (physics true) launched) == 0 /\
  vy (Nat.iter 121 (physics true) launched) == 0.6 /\
  y (Nat.iter 121 (physics true) launched) == 0.6.
Proof. vm_compute. repeat split. Qed.

(** The first loud frame of a run is an onset: the counter goes to 1 and
    the player leaves the ground at the jump velocity. *)
Example first_note_launches :
  soundsCountRef (run [loudFrame 0] freshRun) == 1 /\
  soundsDetected (gameState (run [loudFrame 0] freshRun)) == 1 /\
  isJumping (playerRef (run [loudFrame 0] freshRun)) = true /\
  vy (playerRef (run [loudFrame 0] freshRun)) == -12 /\
  y (playerRef (run [loudFrame 0] freshRun)) == 288 /\
  soundsCountRef (run [loudFrame 0; loudFrame 17] freshRun) == 1 /\
  soundsCountRef
    (run [loudFrame 0; quietFrame 17; loudFrame 33] freshRun) == 2.
Proof. vm_compute. repeat split. Qed.

(** ** Ground and ceiling *)

Lemma ground_level : GROUND_Y - PLAYER_SIZE == 300.
Proof. reflexivity. Qed.

(** Whatever the player and the frame, the physics step ends between the
    ceiling and the ground. *)
Lemma physics_in_bounds (s : bool) (p : Player) :
  0 <= y (physics s p) /\ y (physics s p) <= GROUND_Y - PLAYER_SIZE.
Proof.
  unfold physics, boundaryChecks, ceilingCheck, groundCheck.
  set (q := integrate (jumpHover s p)).
  pose proof ground_level as HG.
  destruct (JS.gtb (y q) (GROUND_Y - PLAYER_SIZE)) eqn:Eg; cbn [y].
  - assert (El : JS.ltb (GROUND_Y - PLAYER_SIZE) 0 = false) by reflexivity.
    rewrite El. cbn [y]. lra.
  - apply gtb_false in Eg.
    destruct (JS.ltb (y q) 0) eqn:El; cbn [y].
    + lra.
    + apply ltb_false in El. lra.
Qed.

Lemma gameLoop_keeps_bounds (f : Frame) (w : World) :
  0 <= y (playerRef w) /\ y (playerRef w) <= GROUND_Y - PLAYER_SIZE ->
  0 <= y (playerRef (gameLoop f w)) /\
  y (playerRef (gameLoop f w)) <= GROUND_Y - PLAYER_SIZE.
Proof.
  intros Hw.
  destruct (gameLoop_player f w) as [[-> _]|(s & [[-> _]|[-> _]])];
    [exact Hw | apply physics_in_bounds | apply physics_in_bounds].
Qed.

Lemma reset_in_bounds :
  0 <= GROUND_Y - PLAYER_SIZE /\ GROUND_Y - PLAYER_SIZE <= GROUND_Y - PLAYER_SIZE.
Proof. split; discriminate. Qed.

(** C4.  After the physics step of any frame the player's height lies
    between 0 and [GROUND_Y - PLAYER_SIZE].  When the ground test fires,
    the height is the ground level, the velocity 0 and the player no longer
    jumping; when the ceiling test fires, the height and the velocity are 0
    and the jumping flag is the one the player had; when neither fires the
    integrated player is kept.  The bounds hold after every run of frames
    from the state [startGame] sets, and in every world the component can
    reach. *)
Theorem position_stays_in_bounds (s : bool) (p : Player) :
  (0 <= y (physics s p) /\ y (physics s p) <= GROUND_Y - PLAYER_SIZE) /\
  (GROUND_Y - PLAYER_SIZE < y (integrate (jumpHover s p)) ->
   y (physics s p) = GROUND_Y - PLAYER_SIZE /\
   vy (physics s p) = 0 /\
   isJumping (physics s p) = false) /\
  (y (integrate (jumpHover s p)) < 0 ->
   y (physics s p) = 0 /\
   vy (physics s p) = 0 /\
   isJumping (physics s p) = isJumping p) /\
  (0 <= y (integrate (jumpHover s p)) ->
   y (integrate (jumpHover s p)) <= GROUND_Y - PLAYER_SIZE ->
   physics s p = integrate (jumpHover s p)) /\
  (forall (level : LevelConfig) (w : World) (frames : list Frame),
      micEnabled w = true ->
      0 <= y (playerRef (run frames (startGame level w))) /\
      y (playerRef (run frames (startGame level w)))
      <= GROUND_Y - PLAYER_SIZE) /\
  (forall events : list Event,
      0 <= y (playerRef (after events)) /\
      y (playerRef (after events)) <= GROUND_Y - PLAYER_SIZE).
Proof.
  split; [apply physics_in_bounds|].
  assert (Hj : isJumping (integrate (jumpHover s p)) = isJumping p).
  { unfold jumpHover. destruct (s && isJumping p); [|reflexivity].
    now destruct (JS.ltb_undef _ _). }
  unfold physics, boundaryChecks, ceilingCheck, groundCheck.
  set (q := integrate (jumpHover s p)) in *.
  pose proof ground_level as HG.
  repeat split.
  - apply gtb_true in H. rewrite H. reflexivity.
  - apply gtb_true in H. rewrite H. reflexivity.
  - apply gtb_true in H. rewrite H. reflexivity.
  - assert (Eg : JS.gtb (y q) (GROUND_Y - PLAYER_SIZE) = false)
      by (apply gtb_false; lra).
    rewrite Eg. apply ltb_true in H. rewrite H. reflexivity.
  - assert (Eg : JS.gtb (y q) (GROUND_Y - PLAYER_SIZE) = false)
      by (apply gtb_false; lra).
    rewrite Eg. apply ltb_true in H. rewrite H. reflexivity.
  - assert (Eg : JS.gtb (y q) (GROUND_Y - PLAYER_SIZE) = false)
      by (apply gtb_false; lra).
    rewrite Eg. apply ltb_true in H. rewrite H. exact Hj.
  - intros H0 H1. apply gtb_false in H1. apply ltb_false in H0.
    now rewrite H1, H0.
  - now apply (run_player_invariant
                 (fun p => 0 <= y p /\ y p <= GROUND_Y - PLAYER_SIZE)
                 reset_in_bounds gameLoop_keeps_bounds).
  - now apply (run_player_invariant
                 (fun p => 0 <= y p /\ y p <= GROUND_Y - PLAYER_SIZE)
                 reset_in_bounds gameLoop_keeps_bounds).
  - apply (after_player_invariant
             (fun p => 0 <= y p /\ y p <= GROUND_Y - PLAYER_SIZE)
             reset_in_bounds gameLoop_keeps_bounds events reset_in_bounds).
  - apply (after_player_invariant
             (fun p => 0 <= y p /\ y p <= GROUND_Y - PLAYER_SIZE)
             reset_in_bounds gameLoop_keeps_bounds events reset_in_bounds).
Qed.

(** ** Rounding *)

Lemma nearestEven_le (m : Q) (K : Z) :
  m <= inject_Z K -> (JS.nearestEven m <= K)%Z.
Proof.
  intros H. unfold JS.nearestEven.
  assert (Hf : (Qfloor m <= K)%Z).
  { rewrite <- (Qfloor_Z K). now apply Qfloor_resp_le. }
  destruct (Z.eq_dec (Qfloor m) K) as [E | E].
  - assert (Hlt : m - inject_Z (Qfloor m) < 1 # 2) by (rewrite E; lra).
    rewrite Qlt_alt in Hlt. now rewrite Hlt.
  - destruct (m - inject_Z (Qfloor m) ?= 1 # 2); try destruct (Z.even _); lia.
Qed.

Lemma nearestEven_ge (m : Q) (K : Z) :
  inject_Z K <= m -> (K <= JS.nearestEven m)%Z.
Proof.
  intros H. unfold JS.nearestEven.
  assert (Hf : (K <= Qfloor m)%Z).
  { rewrite <- (Qfloor_Z K). now apply Qfloor_resp_le. }
  destruct (m - inject_Z (Qfloor m) ?= 1 # 2); try destruct (Z.even _); lia.
Qed.

Lemma pow2_pos (k : Z) : 0 < 2 ^ k.
Proof. apply Qpower_0_lt. reflexivity. Qed.

Lemma pow2_inject (k : Z) : (0 <= k)%Z -> 2 ^ k == inject_Z (2 ^ k).
Proof. intros H. now rewrite Zpower_Qpower. Qed.

Lemma pow2_plus (a b : Z) : 2 ^ (a + b) == 2 ^ a * 2 ^ b.
Proof. apply Qpower_plus. discriminate. Qed.

(** A magnitude below [2^(s+53)] is rounded at a digit of exponent [s] or
    less. *)
Lemma ulpExponent_le (a : Q) (s : Z) :
  0 <= a -> a < 2 ^ (s + 53) -> (-1074 <= s)%Z -> (JS.ulpExponent a <= s)%Z.
Proof.
  intros H0 H1 Hs. unfold JS.ulpExponent.
  set (A := Qfloor (a * 2 ^ 1074)).
  assert (HA : (A < 2 ^ (s + 1127))%Z).
  { assert (Hlt : a * 2 ^ 1074 < inject_Z (2 ^ (s + 1127))).
    { rewrite <- pow2_inject by lia.
      replace (s + 1127)%Z with ((s + 53) + 1074)%Z by lia.
      rewrite pow2_plus. apply Qmult_lt_compat_r; [apply pow2_pos | exact H1]. }
    pose proof (Qfloor_le (a * 2 ^ 1074)) as Hfl. fold A in Hfl.
    rewrite Zlt_Qlt. lra. }
  destruct (Z_lt_le_dec 0 A) as [Hpos | Hneg].
  - apply Z.log2_lt_pow2 in HA; [lia | exact Hpos].
  - rewrite (Z.log2_nonpos A Hneg). lia.
Qed.

(** Rounding keeps the sign. *)
Lemma round_sign (q : Q) :
  (0 <= q -> 0 <= JS.round q) /\ (q <= 0 -> JS.round q <= 0).
Proof.
  unfold JS.round.
  set (t := JS.ulpExponent (Qabs q)).
  assert (HN : (0 <= JS.nearestEven (Qabs q / 2 ^ t))%Z).
  { apply nearestEven_ge. change (inject_Z 0) with 0.
    apply Qle_shift_div_l; [apply pow2_pos |].
    rewrite Qmult_0_l. apply Qabs_nonneg. }
  rewrite Zle_Qle in HN. change (inject_Z 0) with 0 in HN.
  pose proof (pow2_pos t) as Ht.
  assert (Hr : 0 <= inject_Z (JS.nearestEven (Qabs q / 2 ^ t)) * 2 ^ t).
  { apply Qmult_le_0_compat; lra. }
  split; intros H.
  - rewrite <- Qle_bool_iff in H. now rewrite H.
  - destruct (Qle_bool 0 q) eqn:E; [| lra].
    apply Qle_bool_iff in E.
    assert (E0 : q == 0) by lra.
    assert (Ea : Qabs q == 0) by now rewrite E0.
    assert (HN0 : (JS.nearestEven (Qabs q / 2 ^ t) <= 0)%Z).
    { apply nearestEven_le. change (inject_Z 0) with 0.
      apply Qle_shift_div_r; [apply pow2_pos |]. lra. }
    rewrite Zle_Qle in HN0. change (inject_Z 0) with 0 in HN0.
    assert (E1 : inject_Z (JS.nearestEven (Qabs q / 2 ^ t)) == 0) by lra.
    rewrite E1. lra.
Qed.

(** Rounding does not cross a number it could have produced: [round q]
    lies on the side of [C * 2^s] on which [q] lies, for every [s] at
    least the exponent of the last digit of [q]. *)
Lemma round_grid (q : Q) (C s : Z) :
  0 <= q -> (JS.ulpExponent q <= s)%Z ->
  (q <= inject_Z C * 2 ^ s -> JS.round q <= inject_Z C * 2 ^ s) /\
  (inject_Z C * 2 ^ s <= q -> inject_Z C * 2 ^ s <= JS.round q).
Proof.
  intros H0 Hs. unfold JS.round.
  assert (Ea : Qabs q = q).
  { destruct q as [[| n | n] d]; try reflexivity.
    exfalso. revert H0. unfold Qle. simpl. lia. }
  rewrite Ea.
  set (t := JS.ulpExponent q) in *.
  rewrite <- Qle_bool_iff in H0. rewrite H0.
  pose proof (pow2_pos t) as Ht.
  assert (Hc : inject_Z C * 2 ^ s == inject_Z (C * 2 ^ (s - t)) * 2 ^ t).
  { rewrite inject_Z_mult, <- pow2_inject by lia.
    rewrite <- Qmult_assoc, <- pow2_plus.
    now replace (s - t + t)%Z with s by lia. }
  rewrite Hc. split; intros H.
  - apply Qmult_le_compat_r; [| lra].
    rewrite <- Zle_Qle. apply nearestEven_le.
    apply Qle_shift_div_r; [exact Ht | exact H].
  - apply Qmult_le_compat_r; [| lra].
    rewrite <- Zle_Qle. apply nearestEven_ge.
    apply Qle_shift_div_l; [exact Ht | exact H].
Qed.

(** In particular it does not cross an integer below [2^53]. *)
Lemma round_integer (q : Q) (C : Z) :
  (0 <= C)%Z ->
  (q <= inject_Z C -> (C < 2 ^ 53)%Z -> JS.round q <= inject_Z C) /\
  (inject_Z C <= q -> q < 2 ^ 53 -> inject_Z C <= JS.round q).
Proof.
  intros HC. rewrite Zle_Qle in HC. change (inject_Z 0) with 0 in HC.
  assert (Hone : inject_Z C == inject_Z C * 2 ^ 0).
  { change (2 ^ 0) with 1. now rewrite Qmult_1_r. }
  split.
  - intros H HC53. destruct (Qlt_le_dec q 0) as [Hn | Hp].
    + assert (Hr : JS.round q <= 0) by (apply round_sign; lra). lra.
    + rewrite Hone. apply round_grid; [exact Hp | | now rewrite <- Hone].
      apply ulpExponent_le; [exact Hp | | lia].
      rewrite Zlt_Qlt in HC53. rewrite <- pow2_inject in HC53 by lia.
      change (0 + 53)%Z with 53%Z. lra.
  - intros H H53. assert (Hp : 0 <= q) by lra.
    rewrite Hone. apply round_grid; [exact Hp | | now rewrite <- Hone].
    apply ulpExponent_le; [exact Hp | exact H53 | lia].
Qed.

(** Some doubles: the literals [0.1] and [0.4]; the sum [0.1 + 0.2],
    which is the double written [0.30000000000000004] and not [0.3];
    [2^53 + 1], half way between two doubles; the smallest positive
    double, [2^(-1074)], and half of it. *)
Example round_known_doubles :
  JS.round 0.1 == 3602879701896397 # 2 ^ 55 /\
  JS.round 0.4 == 3602879701896397 # 2 ^ 53 /\
  JS.add (JS.round 0.1) (JS.round 0.2) == JS.round 0.30000000000000004 /\
  JS.round 0.3 < JS.add (JS.round 0.1) (JS.round 0.2) /\
  JS.round 9007199254740993 == 9007199254740992 /\
  JS.round (1 # 2 ^ 1074) == 1 # 2 ^ 1074 /\
  JS.round (1 # 2 ^ 1075) == 0.
Proof. repeat split; vm_compute; reflexivity. Qed.

(** The nearest integer is within one half. *)
Lemma nearestEven_error (m : Q) :
  m - (1 # 2) <= inject_Z (JS.nearestEven m) /\
  inject_Z (JS.nearestEven m) <= m + (1 # 2).
Proof.
  unfold JS.nearestEven.
  pose proof (Qfloor_le m) as Hlo.
  pose proof (Qlt_floor m) as Hhi.
  rewrite inject_Z_plus in *. change (inject_Z 1) with 1 in *.
  destruct (m - inject_Z (Qfloor m) ?= 1 # 2) eqn:E.
  - apply Qeq_alt in E.
    destruct (Z.even (Qfloor m));
      rewrite ?inject_Z_plus; change (inject_Z 1) with 1; split; lra.
  - apply Qlt_alt in E. split; lra.
  - apply Qgt_alt in E.
    rewrite inject_Z_plus. change (inject_Z 1) with 1. split; lra.
Qed.

(** Rounding moves a number by at most half a unit of its last digit. *)
Lemma round_error (q : Q) (s : Z) :
  0 <= q -> (JS.ulpExponent q <= s)%Z ->
  q - (1 # 2) * 2 ^ s <= JS.round q /\ JS.round q <= q + (1 # 2) * 2 ^ s.
Proof.
  intros H0 Hs. unfold JS.round.
  assert (Ea : Qabs q = q).
  { destruct q as [[| n | n] d]; try reflexivity.
    exfalso. revert H0. unfold Qle. simpl. lia. }
  rewrite Ea.
  set (t := JS.ulpExponent q) in *.
  rewrite <- Qle_bool_iff in H0. rewrite H0.
  pose proof (pow2_pos t) as Ht.
  assert (Hts : 2 ^ t <= 2 ^ s) by (apply Qpower_le_compat_l; [exact Hs | lra]).
  assert (Eq : q == q / 2 ^ t * 2 ^ t) by (field; lra).
  destruct (nearestEven_error (q / 2 ^ t)) as (Hlo & Hhi).
  set (m := q / 2 ^ t) in *.
  set (N := inject_Z (JS.nearestEven m)) in *.
  apply (Qmult_le_compat_r _ _ (2 ^ t)) in Hlo; [| lra].
  apply (Qmult_le_compat_r _ _ (2 ^ t)) in Hhi; [| lra].
  set (P := 2 ^ t) in *. set (U := 2 ^ s) in *.
  clearbody m N P U.
  assert (Hlo' : (m - (1 # 2)) * P == m * P - (1 # 2) * P) by ring.
  assert (Hhi' : (m + (1 # 2)) * P == m * P + (1 # 2) * P) by ring.
  rewrite Hlo' in Hlo. rewrite Hhi' in Hhi. clear Hlo' Hhi'.
  set (NP := N * P) in *. set (mP := m * P) in *. clearbody NP mP.
  split; lra.
Qed.

(** ** Collision *)

Lemma overlap_positive (lo1 hi1 lo2 hi2 : number) :
  lo1 < hi1 -> lo2 < hi2 ->
  (0 < overlap lo1 hi1 lo2 hi2 <-> lo2 < hi1 /\ lo1 < hi2).
Proof.
  intros H1 H2. unfold overlap.
  destruct (Q.max_spec lo1 lo2) as [[? Hmax]|[? Hmax]];
    destruct (Q.min_spec hi1 hi2) as [[? Hmin]|[? Hmin]];
    rewrite Hmax, Hmin; split; intros; try split; lra.
Qed.

Lemma overlap_at_least (c lo1 hi1 lo2 hi2 : number) :
  c <= overlap lo1 hi1 lo2 hi2 -> lo2 + c <= hi1 /\ lo1 + c <= hi2.
Proof.
  unfold overlap.
  destruct (Q.max_spec lo1 lo2) as [[? Hmax]|[? Hmax]];
    destruct (Q.min_spec hi1 hi2) as [[? Hmin]|[? Hmin]];
    rewrite Hmax, Hmin; intros; split; lra.
Qed.

Lemma obsHeight_positive (obs : Obstacle) : 0 < obsHeight obs.
Proof. unfold obsHeight. destruct (type obs); reflexivity. Qed.

(** The top of an obstacle's box is an integer between 240 and 290, and
    the two sums of constants of the test are exact. *)
Lemma obsY_integer (obs : Obstacle) :
  exists C : Z, obsY obs == inject_Z C /\ (240 <= C <= 290)%Z.
Proof.
  unfold obsY, obsHeight.
  destruct (type obs); [exists 290%Z | exists 240%Z | exists 290%Z];
    (split; [reflexivity | lia]).
Qed.

Lemma constant_sums_exact (obs : Obstacle) :
  JS.add 50 PLAYER_SIZE == 50 + PLAYER_SIZE /\
  JS.add (obsY obs) (obsHeight obs) == obsY obs + obsHeight obs.
Proof.
  unfold obsY, obsHeight.
  destruct (type obs); split; vm_compute; reflexivity.
Qed.

(** The test of the loop, with the two sums that depend on the positions
    as the program computes them. *)
Lemma hits_test (p : Player) (obs : Obstacle) :
  hits p obs = true <->
  x obs < 50 + PLAYER_SIZE /\
  50 < JS.add (x obs) OBSTACLE_WIDTH /\
  obsY obs < JS.add (y p) PLAYER_SIZE /\
  y p < obsY obs + obsHeight obs.
Proof.
  unfold hits.
  rewrite !andb_true_iff, !ltb_true, !gtb_true.
  destruct (constant_sums_exact obs) as (E1 & E2).
  rewrite E1, E2. tauto.
Qed.

(** A rounded sum above an integer bound comes from an exact sum above
    it, and an exact sum at or above an integer stays there. *)
Lemma hits_overlap (p : Player) (obs : Obstacle) :
  hits p obs = true -> 0 < overlapX obs /\ 0 < overlapY p obs.
Proof.
  rewrite hits_test. intros (H1 & H2 & H3 & H4).
  pose proof (obsHeight_positive obs) as Hh.
  unfold overlapX, overlapY.
  rewrite !overlap_positive by (unfold PLAYER_SIZE, OBSTACLE_WIDTH; lra).
  repeat split; try assumption.
  - destruct (Qlt_le_dec 50 (x obs + OBSTACLE_WIDTH)) as [|Hle]; [assumption|].
    exfalso.
    assert (Hr : JS.add (x obs) OBSTACLE_WIDTH <= inject_Z 50).
    { apply round_integer; [lia | exact Hle | reflexivity]. }
    change (inject_Z 50) with 50 in Hr. lra.
  - destruct (obsY_integer obs) as (C & EC & HC).
    destruct (Qlt_le_dec (obsY obs) (y p + PLAYER_SIZE)) as [|Hle]; [assumption|].
    exfalso.
    assert (Hr : JS.add (y p) PLAYER_SIZE <= inject_Z C).
    { apply round_integer; [lia | lra | lia]. }
    lra.
Qed.

Lemma overlap_hits (p : Player) (obs : Obstacle) :
  1 <= overlapX obs -> 1 <= overlapY p obs -> hits p obs = true.
Proof.
  intros Hx Hy. apply hits_test.
  pose proof (obsHeight_positive obs) as Hh.
  apply overlap_at_least in Hx. apply overlap_at_least in Hy.
  destruct Hx as (Hx1 & Hx2). destruct Hy as (Hy1 & Hy2).
  assert (Hhi : obsY obs + obsHeight obs <= 340).
  { unfold obsY, obsHeight. destruct (type obs); vm_compute; discriminate. }
  unfold PLAYER_SIZE, OBSTACLE_WIDTH in *.
  assert (H53 : 1000 < 2 ^ 53) by reflexivity.
  repeat split; try lra.
  - assert (Hr : inject_Z 51 <= JS.add (x obs) 30).
    { apply round_integer; [lia | change (inject_Z 51) with 51; lra | lra]. }
    change (inject_Z 51) with 51 in Hr. lra.
  - destruct (obsY_integer obs) as (C & EC & HC).
    assert (Hr : inject_Z (C + 1) <= JS.add (y p) 40).
    { apply round_integer; [lia | rewrite inject_Z_plus | lra].
      change (inject_Z 1) with 1. lra. }
    rewrite inject_Z_plus in Hr. change (inject_Z 1) with 1 in Hr. lra.
Qed.

(** When the two sums are exact the test is the strict overlap. *)
Lemma exact_sums_hits (p : Player) (obs : Obstacle) :
  JS.add (x obs) OBSTACLE_WIDTH == x obs + OBSTACLE_WIDTH ->
  JS.add (y p) PLAYER_SIZE == y p + PLAYER_SIZE ->
  (hits p obs = true <-> 0 < overlapX obs /\ 0 < overlapY p obs).
Proof.
  intros Ex Ey. rewrite hits_test, Ex, Ey.
  pose proof (obsHeight_positive obs) as Hh.
  unfold overlapX, overlapY.
  rewrite !overlap_positive by (unfold PLAYER_SIZE, OBSTACLE_WIDTH; lra).
  tauto.
Qed.

(** A non-negative integer below [2^53] is a double. *)
Lemma round_integer_exact (q : Q) (C : Z) :
  (0 <= C < 2 ^ 53)%Z -> q == inject_Z C -> JS.round q == q.
Proof.
  intros HC E.
  assert (H53 : inject_Z C < 2 ^ 53).
  { change (2 ^ 53) with (inject_Z (2 ^ 53)). rewrite <- Zlt_Qlt. lia. }
  destruct (round_integer q C) as (Hle & Hge); [lia|].
  assert (H1 : JS.round q <= inject_Z C) by (apply Hle; [lra | lia]).
  assert (H2 : inject_Z C <= JS.round q) by (apply Hge; lra).
  lra.
Qed.

(** The sums are exact on integer positions. *)
Lemma integer_positions_exact (p : Player) (obs : Obstacle) (n m : Z) :
  x obs == inject_Z n -> y p == inject_Z m ->
  (- 30 <= n < 2 ^ 52)%Z -> (- 40 <= m < 2 ^ 52)%Z ->
  JS.add (x obs) OBSTACLE_WIDTH == x obs + OBSTACLE_WIDTH /\
  JS.add (y p) PLAYER_SIZE == y p + PLAYER_SIZE.
Proof.
  intros En Em Hn Hm. unfold JS.add, OBSTACLE_WIDTH, PLAYER_SIZE. split.
  - apply (round_integer_exact _ (n + 30)); [lia|].
    rewrite inject_Z_plus, En. reflexivity.
  - apply (round_integer_exact _ (m + 40)); [lia|].
    rewrite inject_Z_plus, Em. reflexivity.
Qed.

(** The loop returns at the first obstacle that hits. *)
Lemma collisionDetection_exists (p : Player) (obstacles : list Obstacle) :
  collisionDetection p obstacles = true <->
  exists obs, In obs obstacles /\ hits p obs = true.
Proof.
  induction obstacles as [|o obstacles IH]; cbn [collisionDetection In].
  - split; [discriminate | intros (obs & [] & _)].
  - destruct (hits p o) eqn:Eo.
    + split; [|reflexivity]. intros _. exists o. auto.
    + rewrite IH. split.
      * intros (obs & Hin & Hhit). exists obs. auto.
      * intros (obs & [->|Hin] & Hhit); [congruence|]. exists obs. auto.
Qed.

Lemma collisionDetection_first (p : Player) (pre rest : list Obstacle)
      (obs : Obstacle) :
  hits p obs = true ->
  collisionDetection p (pre ++ obs :: rest) = true.
Proof.
  intros Hhit. induction pre as [|o pre IH]; cbn [collisionDetection app].
  - now rewrite Hhit.
  - now destruct (hits p o).
Qed.

(** C5, as amended.  The test applied to each live obstacle is the
    conjunction of four strict comparisons, two of them on sums that the
    program rounds to doubles.  It holds only if the player's box and the
    obstacle's box overlap by a positive length on both axes, and it holds
    whenever they overlap by at least 1 on both axes; boxes that touch along
    an edge, an overlap of exactly 0 on either axis, do not collide.  When
    the two sums are exact, as they are for integer positions of the
    obstacle and of the player, the test is the strict overlap itself.  The
    loop returns at the first obstacle that
    collides, whatever follows it in the list; the frame then sets the run
    to [gameover] and stops, leaving the obstacles unpruned and the canvas
    unpainted; without a collision the run state is left as it was. *)
Theorem collision_between_touch_and_unit_overlap (p : Player)
        (obs : Obstacle) :
  (hits p obs = true <->
   x obs < 50 + PLAYER_SIZE /\
   50 < JS.add (x obs) OBSTACLE_WIDTH /\
   obsY obs < JS.add (y p) PLAYER_SIZE /\
   y p < obsY obs + obsHeight obs) /\
  (hits p obs = true -> 0 < overlapX obs /\ 0 < overlapY p obs) /\
  (overlapX obs == 0 \/ overlapY p obs == 0 -> hits p obs = false) /\
  (1 <= overlapX obs -> 1 <= overlapY p obs -> hits p obs = true) /\
  (JS.add (x obs) OBSTACLE_WIDTH == x obs + OBSTACLE_WIDTH ->
   JS.add (y p) PLAYER_SIZE == y p + PLAYER_SIZE ->
   (hits p obs = true <-> 0 < overlapX obs /\ 0 < overlapY p obs)) /\
  (forall n m : Z,
      x obs == inject_Z n -> y p == inject_Z m ->
      (- 30 <= n < 2 ^ 52)%Z -> (- 40 <= m < 2 ^ 52)%Z ->
      (hits p obs = true <-> 0 < overlapX obs /\ 0 < overlapY p obs)) /\
  (forall pre rest : list Obstacle,
      hits p obs = true ->
      collisionDetection p (pre ++ obs :: rest) = true) /\
  (forall obstacles : list Obstacle,
      collisionDetection p obstacles = true <->
      exists o, In o obstacles /\ hits p o = true) /\
  (forall (level : LevelConfig) (f : Frame) (w : World),
      let wc := snd (advance level f w) in
      (collisionDetection (playerRef wc) (obstaclesRef wc) = true ->
       playFrame level f w = setGameState (with_status gameover) wc /\
       status (gameState (playFrame level f w)) = gameover /\
       obstaclesRef (playFrame level f w) = obstaclesRef wc /\
       canvas (playFrame level f w) = canvas w) /\
      (collisionDetection (playerRef wc) (obstaclesRef wc) = false ->
       status (gameState (playFrame level f w)) = status (gameState w) /\
       obstaclesRef (playFrame level f w) = removeOffScreen (obstaclesRef wc) /\
       List.length (canvas (playFrame level f w))
       = S (List.length (canvas w)))).
Proof.
  pose proof (hits_overlap p obs) as Hover.
  split; [apply hits_test|].
  split; [exact Hover|].
  split; [|split; [|split; [|split; [|split; [|split]]]]].
  - intros Htouch. apply not_true_is_false. intros Hhit.
    destruct (Hover Hhit) as [Hx Hy]. destruct Htouch; lra.
  - apply overlap_hits.
  - apply exact_sums_hits.
  - intros n m En Em Hn Hm.
    destruct (integer_positions_exact p obs n m En Em Hn Hm) as (Ex & Ey).
    now apply exact_sums_hits.
  - intros pre rest. apply collisionDetection_first.
  - apply collisionDetection_exists.
  - intros level f w wc. subst wc.
    assert (Hadv : canvas (snd (advance level f w)) = canvas w /\
                   status (gameState (snd (advance level f w)))
                   = status (gameState w)).
    { unfold advance.
      destruct (audioDetection_effect f w) as (_ & _ & _ & _ & Hc & Hs & _).
      destruct (audioDetection f w) as [s wa]; simpl in *.
      set (wp := set_playerRef _ wa).
      destruct (obstacleGeneration_effect level f wp)
        as (_ & _ & _ & Hc' & Hg' & _).
      rewrite Hc', Hg'. simpl. auto. }
    destruct Hadv as (Hc & Hs).
    unfold playFrame.
    destruct (advance level f w) as [s wc]; simpl in *.
    split; intros ->; simpl; rewrite ?Hc; auto.
Qed.

(** C5, as stated, fails for small overlaps.  A pipe whose left edge is
    the double next above 20, that is 20 + 2^(-48), has its right edge
    2^(-48) beyond the player's left edge at 50, and the player at height
    255.6 reaches 5.6 below the top of the pipe: the two boxes overlap by
    a positive length on both axes.  The sum of the edge and 30 is half
    way between the doubles 50 and 50 + 2^(-47); the program obtains 50,
    the even one, so that [obs.x + OBSTACLE_WIDTH > 50] is false: the
    obstacle does not collide and the loop ends without a collision. *)
Lemma tiny_overlap_not_detected :
  x grazingPipe == 20 + (1 # 2 ^ 48) /\
  overlapX grazingPipe == 1 # 2 ^ 48 /\
  0 < overlapX grazingPipe /\
  0 < overlapY (playerAt (JS.round 255.6)) grazingPipe /\
  JS.add (x grazingPipe) OBSTACLE_WIDTH == 50 /\
  hits (playerAt (JS.round 255.6)) grazingPipe = false /\
  collisionDetection (playerAt (JS.round 255.6)) [grazingPipe] = false.
Proof. repeat split; vm_compute; reflexivity. Qed.

Example pipe_touching_right_edge :
  overlapX {| x := 90; type := pipe |} == 0 /\
  hits standing {| x := 90; type := pipe |} = false /\
  overlapX {| x := 89; type := pipe |} == 1 /\
  hits standing {| x := 89; type := pipe |} = true.
Proof. repeat split; vm_compute; reflexivity. Qed.

Example pipe_touching_left_edge :
  overlapX {| x := 20; type := plant |} == 0 /\
  hits standing {| x := 20; type := plant |} = false /\
  overlapX {| x := 21; type := plant |} == 1 /\
  hits standing {| x := 21; type := plant |} = true.
Proof. repeat split; vm_compute; reflexivity. Qed.

Example box_touching_from_below_and_above :
  overlapY (playerAt 280) {| x := 60; type := box |} == 0 /\
  hits (playerAt 280) {| x := 60; type := box |} = false /\
  hits (playerAt 279) {| x := 60; type := box |} = true /\
  overlapY (playerAt 200) {| x := 60; type := box |} == 0 /\
  hits (playerAt 200) {| x := 60; type := box |} = false /\
  hits (playerAt 201) {| x := 60; type := box |} = true.
Proof. repeat split; vm_compute; reflexivity. Qed.

(** ** The hover timer after a reset *)

(** The hover test keeps an absent timer absent and a present one
    present, and leaves the jumping flag alone; so does the whole physics
    step, except that it may lower the flag. *)
Lemma jumpHover_timer (s : bool) (p : Player) :
  isJumping (jumpHover s p) = isJumping p /\
  (hoverTime p = None -> hoverTime (jumpHover s p) = None) /\
  ((exists h, hoverTime p = Some h) ->
   exists h, hoverTime (jumpHover s p) = Some h).
Proof.
  unfold jumpHover.
  destruct (s && isJumping p);
    [destruct (JS.ltb_undef (hoverTime p) 2)|]; cbn [isJumping hoverTime];
    repeat split; auto.
  - intros ->. reflexivity.
  - intros (h & ->). simpl. eauto.
Qed.

Lemma physics_hoverTime (s : bool) (p : Player) :
  (hoverTime p = None -> hoverTime (physics s p) = None) /\
  ((exists h, hoverTime p = Some h) ->
   exists h, hoverTime (physics s p) = Some h) /\
  (isJumping p = false -> isJumping (physics s p) = false).
Proof.
  unfold physics.
  destruct (boundaryChecks_keeps (integrate (jumpHover s p))) as (-> & Hj).
  destruct (jumpHover_timer s p) as (Ej & Hnone & Hsome).
  cbn [integrate hoverTime isJumping] in *.
  repeat split; auto.
  intros E. apply Hj. now rewrite Ej.
Qed.

(** Two facts a frame preserves: a jumping player has a timer; and, the
    counter never being negative, while it is still 0 the timer is absent
    and the player is not jumping. *)
Lemma gameLoop_keeps_timer (f : Frame) (w : World) :
  (isJumping (playerRef w) = true ->
   exists h, hoverTime (playerRef w) = Some h) ->
  (isJumping (playerRef (gameLoop f w)) = true ->
   exists h, hoverTime (playerRef (gameLoop f w)) = Some h).
Proof.
  intros Hw.
  destruct (gameLoop_player f w) as [[-> _]|(s & [[-> _]|[-> _]])].
  - exact Hw.
  - destruct (physics_hoverTime s (playerRef w)) as (_ & Hsome & Hnj).
    intros Hj. apply Hsome, Hw.
    destruct (isJumping (playerRef w)); [reflexivity|].
    rewrite Hnj in Hj by reflexivity. discriminate.
  - intros _. apply physics_hoverTime. simpl. eauto.
Qed.

Lemma gameLoop_keeps_unset (f : Frame) (w : World) :
  (0 <= soundsCountRef w /\
   (soundsCountRef w == 0 ->
    hoverTime (playerRef w) = None /\ isJumping (playerRef w) = false)) ->
  0 <= soundsCountRef (gameLoop f w) /\
  (soundsCountRef (gameLoop f w) == 0 ->
   hoverTime (playerRef (gameLoop f w)) = None /\
   isJumping (playerRef (gameLoop f w)) = false).
Proof.
  intros (Hpos & Hzero).
  destruct (gameLoop_player f w) as [[-> ->]|(s & [[-> ->]|[-> ->]])].
  - auto.
  - split; [exact Hpos|]. intros H0. destruct (Hzero H0) as (Hn & Hj).
    split; now apply physics_hoverTime.
  - split; [lra|]. intros H0. exfalso. lra.
Qed.

(** The value the hover test would read in a frame: when the test is
    reached with a sounding frame and a jumping player, the timer of the
    player the audio block hands over is a number. *)
Lemma hover_read_defined (f : Frame) (w : World) :
  (isJumping (playerRef w) = true ->
   exists h, hoverTime (playerRef w) = Some h) ->
  fst (audioDetection f w) && isJumping (playerRef (snd (audioDetection f w)))
  = true ->
  exists h, hoverTime (playerRef (snd (audioDetection f w))) = Some h.
Proof.
  intros Hw Hread. apply andb_true_iff in Hread. destruct Hread as (_ & Hj).
  destruct (audioDetection_effect f w) as ([[Hp _]|(_ & Hp & _)] & _);
    rewrite Hp in *.
  - auto.
  - simpl. eauto.
Qed.

(** C10.  With the microphone on, [startGame] leaves the player without a
    hover timer and not jumping.  Along any run of frames from there, the
    timer stays absent as long as no onset has been counted; an onset sets
    it to 0; and whenever the hover test is reached with a sounding frame
    and a jumping player, the timer it reads is a number, because a
    player only jumps after an onset.  The same holds of the hover test in
    every world the component can reach. *)
Theorem hover_timer_defined_when_read (level : LevelConfig) (w : World)
        (frames : list Frame) :
  micEnabled w = true ->
  hoverTime (playerRef (startGame level w)) = None /\
  isJumping (playerRef (startGame level w)) = false /\
  (soundsCountRef (run frames (startGame level w)) == 0 ->
   hoverTime (playerRef (run frames (startGame level w))) = None /\
   isJumping (playerRef (run frames (startGame level w))) = false) /\
  hoverTime (playerRef (onOnset (run frames (startGame level w)))) = Some 0 /\
  isJumping (playerRef (onOnset (run frames (startGame level w)))) = true /\
  (isJumping (playerRef (run frames (startGame level w))) = true ->
   exists h, hoverTime (playerRef (run frames (startGame level w))) = Some h) /\
  (forall f : Frame,
      fst (audioDetection f (run frames (startGame level w))) &&
      isJumping
        (playerRef (snd (audioDetection f (run frames (startGame level w)))))
      = true ->
      exists h,
        hoverTime
          (playerRef (snd (audioDetection f (run frames (startGame level w)))))
        = Some h) /\
  (forall (events : list Event) (f : Frame),
      fst (audioDetection f (after events)) &&
      isJumping (playerRef (snd (audioDetection f (after events)))) = true ->
      exists h,
        hoverTime (playerRef (snd (audioDetection f (after events))))
        = Some h).
Proof.
  intros Hmic.
  set (timed := fun p : Player =>
                  isJumping p = true -> exists h, hoverTime p = Some h).
  assert (Hreset : timed {| y := GROUND_Y - PLAYER_SIZE; vy := 0;
                            isJumping := false; hoverTime := None |})
    by (intros Hj; discriminate).
  assert (Hstart : hoverTime (playerRef (startGame level w)) = None /\
                   isJumping (playerRef (startGame level w)) = false /\
                   soundsCountRef (startGame level w) = 0).
  { unfold startGame. rewrite Hmic. simpl. auto. }
  destruct Hstart as (Hh & Hj & Hn).
  assert (Hrun : timed (playerRef (run frames (startGame level w))))
    by exact (run_player_invariant timed Hreset gameLoop_keeps_timer
                level w frames Hmic).
  split; [exact Hh|]. split; [exact Hj|]. split.
  { apply (run_invariant
             (fun w => 0 <= soundsCountRef w /\
                       (soundsCountRef w == 0 ->
                        hoverTime (playerRef w) = None /\
                        isJumping (playerRef w) = false))
             gameLoop_keeps_unset).
    rewrite Hn. split; [lra | auto]. }
  split; [reflexivity|]. split; [reflexivity|]. split; [exact Hrun|].
  split.
  { intros f. apply hover_read_defined, Hrun. }
  intros events f. apply hover_read_defined.
  apply (after_player_invariant timed Hreset gameLoop_keeps_timer).
  intros Hj'. discriminate.
Qed.

Lemma hover_timer_defined_when_read_witness :
  hoverTime (playerRef freshRun) = None /\
  hoverTime (playerRef (run [loudFrame 0] freshRun)) <> None.
Proof.
  pose proof (hover_timer_defined_when_read level1 (toggleMic true initial)
                [loudFrame 0] eq_refl) as (Hnone & _ & _ & _ & _ & Hdef & _).
  split; [exact Hnone|].
  destruct (Hdef eq_refl) as (h & Hh). unfold freshRun. rewrite Hh.
  discriminate.
Defined.

(** * Further properties *)

(** ** The processor over its life *)

Lemma getByteFrequencyData_length (bins array : list N) :
  List.length (getByteFrequencyData bins array) = List.length array.
Proof.
  unfold getByteFrequencyData.
  rewrite length_app, length_firstn, length_skipn. lia.
Qed.

Lemma getByteFrequencyData_again (bins array : list N) :
  getByteFrequencyData bins (getByteFrequencyData bins array)
  = getByteFrequencyData bins array.
Proof.
  unfold getByteFrequencyData at 1.
  rewrite getByteFrequencyData_length. unfold getByteFrequencyData.
  f_equal.
  rewrite skipn_app, length_firstn.
  destruct (Nat.le_gt_cases (List.length bins) (List.length array)) as [Hle|Hgt].
  - rewrite (skipn_all2 (firstn _ bins))
      by (rewrite length_firstn; lia).
    replace (List.length bins - Nat.min (List.length array) (List.length bins))%nat
      with 0%nat by lia.
    reflexivity.
  - rewrite (skipn_all2 (firstn _ bins))
      by (rewrite length_firstn; lia).
    rewrite !(skipn_all2 array) by lia.
    simpl. now rewrite skipn_nil.
Qed.

(** Reading the volume twice from the same analyser content gives the
    same volume and leaves the processor as the first reading left it. *)
Lemma getVolume_again (bins : list N) (p : AudioProcessor.t) :
  getVolume bins (snd (getVolume bins p))
  = (fst (getVolume bins p), snd (getVolume bins p)).
Proof.
  unfold getVolume.
  destruct (analyser p) as [a|] eqn:Ea; [|simpl; now rewrite Ea].
  destruct (dataArray p) as [array|] eqn:Ed; simpl; rewrite Ea; simpl.
  - now rewrite getByteFrequencyData_again.
  - now rewrite Ed.
Qed.

Lemma getVolume_with_isSounding (bins : list N) (b : bool)
      (p : AudioProcessor.t) :
  getVolume bins (with_isSounding b p)
  = (fst (getVolume bins p), with_isSounding b (snd (getVolume bins p))).
Proof.
  destruct p as [c a m d s t b']. unfold getVolume, with_isSounding; simpl.
  destruct a, d; reflexivity.
Qed.

(** X1.  Polling twice while the analyser holds the same content: the
    second call reports neither an onset nor an offset, returns the same
    [isSounding] as the first, and leaves the processor exactly as the
    first call left it.  An edge is reported once. *)
Theorem second_poll_reports_no_edge (bins : list N) (p : AudioProcessor.t) :
  onset (fst (checkSound bins (snd (checkSound bins p)))) = false /\
  offset (fst (checkSound bins (snd (checkSound bins p)))) = false /\
  sounding (fst (checkSound bins (snd (checkSound bins p))))
  = sounding (fst (checkSound bins p)) /\
  snd (checkSound bins (snd (checkSound bins p))) = snd (checkSound bins p).
Proof.
  rewrite (checkSound_eq bins p). cbn [fst snd].
  set (now := JS.gtb (fst (getVolume bins p)) (AudioProcessor.threshold p)).
  rewrite checkSound_eq.
  rewrite getVolume_with_isSounding, getVolume_again. cbn [fst snd].
  destruct (getVolume_keeps bins p) as (Ht & _).
  change (AudioProcessor.threshold (with_isSounding now (snd (getVolume bins p))))
    with (AudioProcessor.threshold (snd (getVolume bins p))).
  rewrite Ht. fold now.
  change (isSounding (with_isSounding now (snd (getVolume bins p)))) with now.
  cbn [onset offset sounding].
  destruct now; repeat split.
Qed.

(** X2.  Switching the microphone off and on again: [start] succeeds on a
    stopped processor, gives it a live session and a fresh buffer of 128
    zeros, and keeps both the threshold and the stored [isSounding].  So
    when the processor was stopped in the middle of a note, the first poll
    after the restart reports no onset, however loud it is. *)
Theorem restart_keeps_detector_state (bins : list N) (p : AudioProcessor.t) :
  exists p',
    start true (stop p) = inl p' /\
    sessionActive p' = true /\
    analyser p' = Some {| fftSize := 256 |} /\
    dataArray p' = Some (repeat 0%N 128) /\
    AudioProcessor.threshold p' = AudioProcessor.threshold p /\
    isSounding p' = isSounding p /\
    onset (fst (checkSound bins p')) =
      JS.gtb (fst (getVolume bins p')) (AudioProcessor.threshold p)
      && negb (isSounding p) /\
    (isSounding p = true -> onset (fst (checkSound bins p')) = false).
Proof.
  eexists. split; [reflexivity|].
  repeat split.
  - rewrite checkSound_eq. reflexivity.
  - intros Hs. rewrite checkSound_eq. cbn [fst onset].
    change (isSounding _) with (isSounding p). rewrite Hs.
    apply andb_false_r.
Qed.

(** One poll, in the vocabulary of [polls]. *)
Lemma polls_cons (bins : list N) (rest : list (list N))
      (p : AudioProcessor.t) :
  polls (bins :: rest) p =
    (fst (checkSound bins p) :: fst (polls rest (snd (checkSound bins p))),
     snd (polls rest (snd (checkSound bins p)))).
Proof.
  simpl. destruct (checkSound bins p) as [r p1]. simpl.
  destruct (polls rest p1) as [rs p2]. reflexivity.
Qed.

(** X3.  Over any sequence of polls, the number of onsets minus the number
    of offsets is the change of the stored [isSounding] from before the
    first poll to after the last (1 for sounding, 0 for quiet).  Onsets
    and offsets therefore alternate, and from a quiet detector the onsets
    are never fewer than the offsets and exceed them by at most one. *)
Theorem edges_balance (samples : list (list N)) (p : AudioProcessor.t) :
  (Z.of_nat (onsets (fst (polls samples p)))
   - Z.of_nat (offsets (fst (polls samples p)))
   = Z.b2z (isSounding (snd (polls samples p))) - Z.b2z (isSounding p))%Z /\
  List.length (fst (polls samples p)) = List.length samples.
Proof.
  revert p. induction samples as [|bins rest IH]; intros p.
  - simpl. split; [lia | reflexivity].
  - rewrite polls_cons. cbn [fst snd].
    destruct (IH (snd (checkSound bins p))) as (IHe & IHl).
    split; [|simpl; now rewrite IHl].
    unfold onsets, offsets in *. cbn [filter].
    rewrite checkSound_eq in *. cbn [fst snd onset offset] in *.
    change (isSounding (with_isSounding ?b _)) with b in IHe.
    destruct (JS.gtb _ _), (isSounding p); cbn [andb negb List.length] in *;
      simpl Z.b2z in *; lia.
Qed.

(** X4.  [stop] is safe to repeat and safe on a processor that was never
    started: a second [stop] changes nothing, and [stop] on a new
    processor returns it as it is.  After [stop] the session is not live,
    while the threshold, the stored [isSounding], the analyser and the
    buffer are all as before. *)
Theorem stop_is_idempotent (p : AudioProcessor.t) :
  stop (stop p) = stop p /\
  stop AudioProcessor.new = AudioProcessor.new /\
  sessionActive (stop p) = false /\
  AudioProcessor.threshold (stop p) = AudioProcessor.threshold p /\
  isSounding (stop p) = isSounding p /\
  analyser (stop p) = analyser p /\
  dataArray (stop p) = dataArray p.
Proof.
  split; [|split; [reflexivity|]].
  - unfold stop; simpl. destruct (audioContext p), (stream p); reflexivity.
  - destruct (stop_keeps_analyser p) as (Ha & Hd & Ht & Hs & Hl). auto 6.
Qed.

(** ** What a frame never touches *)

Lemma audioDetection_untouched (f : Frame) (w : World) :
  let w' := snd (audioDetection f w) in
  micEnabled w' = micEnabled w /\
  App.threshold w' = App.threshold w /\
  proSpeed w' = proSpeed w /\
  alerts w' = alerts w /\
  lastObstacleTime w' = lastObstacleTime w /\
  currentLevel (gameState w') = currentLevel (gameState w) /\
  score (gameState w') = score (gameState w) /\
  timeLeft (gameState w') = timeLeft (gameState w).
Proof.
  destruct (audioProcessorRef w) as [ap|] eqn:Ea.
  - rewrite (audioDetection_some f w ap Ea). cbn [snd].
    destruct (onset _); simpl; auto 10.
  - rewrite (audioDetection_none f w Ea). simpl. auto 10.
Qed.

Lemma playFrame_untouched (level : LevelConfig) (f : Frame) (w : World) :
  micEnabled (playFrame level f w) = micEnabled w /\
  App.threshold (playFrame level f w) = App.threshold w /\
  proSpeed (playFrame level f w) = proSpeed w /\
  alerts (playFrame level f w) = alerts w /\
  currentLevel (gameState (playFrame level f w)) = currentLevel (gameState w) /\
  score (gameState (playFrame level f w)) = score (gameState w) /\
  timeLeft (gameState (playFrame level f w)) = timeLeft (gameState w).
Proof.
  unfold playFrame, advance.
  destruct (audioDetection_untouched f w)
    as (Hm & Ht & Hp & Ha & _ & Hl & Hs & Hd).
  destruct (audioDetection f w) as [s wa]. cbn [snd] in *.
  rewrite <- Hm, <- Ht, <- Hp, <- Ha, <- Hl, <- Hs, <- Hd.
  unfold obstacleGeneration.
  destruct (JS.gtb_quotient _ _); [destruct (JS.gtb (random1 f) _)|];
    destruct (collisionDetection _ _); simpl; auto 10.
Qed.

Lemma gameLoop_untouched (f : Frame) (w : World) :
  micEnabled (gameLoop f w) = micEnabled w /\
  App.threshold (gameLoop f w) = App.threshold w /\
  proSpeed (gameLoop f w) = proSpeed w /\
  alerts (gameLoop f w) = alerts w /\
  currentLevel (gameState (gameLoop f w)) = currentLevel (gameState w) /\
  score (gameState (gameLoop f w)) = score (gameState w) /\
  timeLeft (gameState (gameLoop f w)) = timeLeft (gameState w).
Proof.
  destruct (gameLoop_cases f w)
    as [[_ ->]|(level & _ & _ & _ & _ & [[_ ->]|[_ ->]])].
  - auto 10.
  - simpl. auto 10.
  - apply (playFrame_untouched level f
             (set_gameTimeRef (gameTimeRef w + dt / 1000) w)).
Qed.

(** X5.  No frame ever writes the [timeLeft], the [score] or the level of
    the game state: after any run of frames they are what they were, so
    for a whole run the displayed [timeLeft] stays at the duration that
    [startGame] stored, although the clock ref advances; the remaining
    time computed by [gameLoop] only decides the end of the run. *)
Theorem displayed_time_never_updated (frames : list Frame) (w : World) :
  timeLeft (gameState (run frames w)) = timeLeft (gameState w) /\
  score (gameState (run frames w)) = score (gameState w) /\
  currentLevel (gameState (run frames w)) = currentLevel (gameState w) /\
  (forall level : LevelConfig,
      micEnabled w = true ->
      timeLeft (gameState (run frames (startGame level w))) = duration level /\
      score (gameState (run frames (startGame level w))) = 0 /\
      currentLevel (gameState (run frames (startGame level w))) = Some level).
Proof.
  assert (G : forall w0,
             timeLeft (gameState (run frames w0)) = timeLeft (gameState w0) /\
             score (gameState (run frames w0)) = score (gameState w0) /\
             currentLevel (gameState (run frames w0))
             = currentLevel (gameState w0)).
  { intros w0.
    apply (run_invariant
             (fun w' => timeLeft (gameState w') = timeLeft (gameState w0) /\
                        score (gameState w') = score (gameState w0) /\
                        currentLevel (gameState w')
                        = currentLevel (gameState w0))); [|auto].
    intros f w' (Ht & Hs & Hl).
    destruct (gameLoop_untouched f w') as (_ & _ & _ & _ & Hl' & Hs' & Ht').
    rewrite Ht', Hs', Hl'. auto. }
  destruct (G w) as (Ht & Hs & Hl).
  split; [exact Ht|]. split; [exact Hs|]. split; [exact Hl|].
  intros level Hmic. destruct (G (startGame level w)) as (-> & -> & ->).
  unfold startGame. rewrite Hmic. simpl. auto.
Qed.

(** ** Counting onsets *)

Lemma audioDetection_display (f : Frame) (w : World) :
  soundsDetected (gameState w) = soundsCountRef w ->
  soundsDetected (gameState (snd (audioDetection f w)))
  = soundsCountRef (snd (audioDetection f w)).
Proof.
  intros Hw. destruct (audioProcessorRef w) as [ap|] eqn:Ea.
  - rewrite (audioDetection_some f w ap Ea). cbn [snd].
    destruct (onset _); simpl; auto.
  - rewrite (audioDetection_none f w Ea). exact Hw.
Qed.

Lemma playFrame_display (level : LevelConfig) (f : Frame) (w : World) :
  soundsDetected (gameState (playFrame level f w))
  = soundsDetected (gameState (snd (audioDetection f w))).
Proof.
  unfold playFrame, advance.
  destruct (audioDetection f w) as [s wa]. cbn [snd].
  unfold obstacleGeneration.
  destruct (JS.gtb_quotient _ _); [destruct (JS.gtb (random1 f) _)|];
    destruct (collisionDetection _ _); reflexivity.
Qed.

Lemma gameLoop_keeps_display (f : Frame) (w : World) :
  soundsDetected (gameState w) = soundsCountRef w ->
  soundsDetected (gameState (gameLoop f w)) = soundsCountRef (gameLoop f w).
Proof.
  intros Hw.
  destruct (gameLoop_cases f w)
    as [[_ ->]|(level & _ & _ & _ & _ & [[_ ->]|[_ ->]])].
  - exact Hw.
  - exact Hw.
  - rewrite playFrame_display, playFrame_count.
    apply audioDetection_display. exact Hw.
Qed.

(** X6.  The count the screen shows is the count the loop keeps: in every
    world the component can reach, [soundsDetected] of the game state
    equals [soundsCountRef].  A frame leaves the counter as it is or adds
    exactly one to it. *)
Theorem displayed_count_is_counter (events : list Event) (f : Frame) :
  soundsDetected (gameState (after events)) = soundsCountRef (after events) /\
  (soundsCountRef (gameLoop f (after events)) = soundsCountRef (after events) \/
   soundsCountRef (gameLoop f (after events))
   = soundsCountRef (after events) + 1).
Proof.
  split.
  - apply (after_invariant
             (fun w => soundsDetected (gameState w) = soundsCountRef w));
      [reflexivity|].
    intros w e Hw. destruct e; simpl.
    + unfold toggleMic. destruct (micEnabled w); simpl; [exact Hw|].
      destruct granted; simpl; exact Hw.
    + unfold changeThreshold.
      destruct (JS.strict_eqb v (App.threshold w)); [exact Hw|]. simpl.
      destruct (audioProcessorRef w); exact Hw.
    + exact Hw.
    + unfold startGame. destruct (micEnabled w); simpl; [reflexivity|exact Hw].
    + exact Hw.
    + apply gameLoop_keeps_display, Hw.
  - destruct (gameLoop_player f (after events))
      as [[_ ->]|(s & [[_ ->]|[_ ->]])]; auto.
Qed.

(** The audio block as seen from the processor: one poll decides the
    frame's [isSounding], the stored state and whether the counter moves. *)
Lemma audioDetection_poll (f : Frame) (w : World) (ap : AudioProcessor.t) :
  audioProcessorRef w = Some ap ->
  exists ap',
    audioProcessorRef (snd (audioDetection f w)) = Some ap' /\
    isSounding ap'
    = JS.gtb (fst (getVolume (binsCheck f) ap)) (AudioProcessor.threshold ap) /\
    AudioProcessor.threshold ap' = AudioProcessor.threshold ap /\
    soundsCountRef (snd (audioDetection f w))
    = if JS.gtb (fst (getVolume (binsCheck f) ap)) (AudioProcessor.threshold ap)
         && negb (isSounding ap)
      then soundsCountRef w + 1 else soundsCountRef w.
Proof.
  intros Ea. rewrite (audioDetection_some f w ap Ea). cbn [snd].
  rewrite checkSound_eq. cbn [fst snd onset].
  set (now := JS.gtb _ _).
  destruct (getVolume_keeps (binsVolume f)
              (with_isSounding now (snd (getVolume (binsCheck f) ap))))
    as (Ht & Hs & _).
  destruct (getVolume_keeps (binsCheck f) ap) as (Ht0 & _).
  eexists. split; [|split; [exact Hs|split]].
  - destruct (now && negb (isSounding ap)); reflexivity.
  - rewrite Ht. exact Ht0.
  - destruct (now && negb (isSounding ap)); reflexivity.
Qed.

Lemma playFrame_processor (level : LevelConfig) (f : Frame) (w : World) :
  audioProcessorRef (playFrame level f w)
  = audioProcessorRef (snd (audioDetection f w)).
Proof.
  unfold playFrame, advance.
  destruct (audioDetection f w) as [s wa]. cbn [snd].
  unfold obstacleGeneration.
  destruct (JS.gtb_quotient _ _); [destruct (JS.gtb (random1 f) _)|];
    destruct (collisionDetection _ _); reflexivity.
Qed.

(** A frame either leaves the counter alone or adds one and leaves the
    processor sounding. *)
Lemma gameLoop_count_step (f : Frame) (w : World) :
  soundsCountRef (gameLoop f w) = soundsCountRef w \/
  (soundsCountRef (gameLoop f w) = soundsCountRef w + 1 /\
   exists ap', audioProcessorRef (gameLoop f w) = Some ap' /\
               isSounding ap' = true).
Proof.
  destruct (gameLoop_cases f w)
    as [[_ ->]|(level & _ & _ & _ & _ & [[_ ->]|[_ ->]])]; auto.
  rewrite playFrame_count, playFrame_processor.
  set (w' := set_gameTimeRef _ w).
  destruct (audioProcessorRef w') as [ap|] eqn:Ea.
  - destruct (audioDetection_poll f w' ap Ea) as (ap' & Hp & Hs & _ & Hn).
    rewrite Hn, Hp.
    destruct (JS.gtb _ _); simpl; auto.
    destruct (isSounding ap); simpl; auto.
    right. split; [reflexivity|]. exists ap'. auto.
  - rewrite (audioDetection_none f w' Ea). auto.
Qed.

(** A frame that finds the processor sounding counts nothing. *)
Lemma gameLoop_no_count_when_sounding (f : Frame) (w : World)
      (ap : AudioProcessor.t) :
  audioProcessorRef w = Some ap -> isSounding ap = true ->
  soundsCountRef (gameLoop f w) = soundsCountRef w.
Proof.
  intros Ea Hs.
  destruct (gameLoop_cases f w)
    as [[_ ->]|(level & _ & _ & _ & _ & [[_ ->]|[_ ->]])]; auto.
  rewrite playFrame_count.
  set (w' := set_gameTimeRef _ w).
  destruct (audioDetection_poll f w' ap Ea) as (ap' & _ & _ & _ & Hn).
  rewrite Hn, Hs, andb_false_r. reflexivity.
Qed.

(** X7.  Two frames in a row never both count an onset: whatever the
    analyser holds in either frame, the counter after the two frames is
    the counter before them or one more.  The frame after a counted onset
    finds the processor sounding, and a sounding processor reports no
    onset. *)
Theorem no_two_onsets_in_a_row (f1 f2 : Frame) (w : World) :
  soundsCountRef (gameLoop f2 (gameLoop f1 w)) = soundsCountRef w \/
  soundsCountRef (gameLoop f2 (gameLoop f1 w)) = soundsCountRef w + 1.
Proof.
  destruct (gameLoop_count_step f1 w) as [H1|(H1 & ap' & Ha & Hs)].
  - destruct (gameLoop_count_step f2 (gameLoop f1 w)) as [H2|(H2 & _)];
      rewrite H2, H1; auto.
  - rewrite (gameLoop_no_count_when_sounding f2 _ ap' Ha Hs), H1. auto.
Qed.

(** ** How a run ends *)

(** The status a frame can leave behind. *)
Lemma gameLoop_status (f : Frame) (w : World) :
  gameLoop f w = w \/
  (status (gameState w) = playing /\
   (status (gameState (gameLoop f w)) = playing \/
    status (gameState (gameLoop f w)) = gameover \/
    (status (gameState (gameLoop f w)) = win /\
     exists level,
       currentLevel (gameState w) = Some level /\
       requiredSounds level <= soundsCountRef (gameLoop f w) /\
       duration level <= gameTimeRef (gameLoop f w)))).
Proof.
  destruct (gameLoop_cases f w)
    as [[_ ->]|(level & Hs & Hl & _ & _ & [[Hd ->]|[_ ->]])]; auto.
  - right. split; [exact Hs|]. simpl.
    destruct (JS.geb _ _) eqn:Eg; auto.
    right. right. split; [reflexivity|]. exists level.
    apply geb_true in Eg. auto.
  - right. split; [exact Hs|].
    destruct (playFrame_state level f
                (set_gameTimeRef (gameTimeRef w + dt / 1000) w))
      as (_ & _ & [E|E]); rewrite E; simpl; auto.
Qed.

(** Once the run is not [playing], frames do nothing. *)
Lemma run_stopped (frames : list Frame) (w : World) :
  is_playing (status (gameState w)) = false -> run frames w = w.
Proof.
  intros Hs. unfold run.
  induction frames as [|f frames IH]; simpl; [reflexivity|].
  replace (gameLoop f w) with w; [exact IH|].
  unfold gameLoop. now rewrite Hs.
Qed.

(** The clock advances by at most one timestep per frame. *)
Lemma run_clock_upper (frames : list Frame) (w : World) :
  gameTimeRef (run frames w)
  <= gameTimeRef w + inject_Z (Z.of_nat (List.length frames)) * (dt / 1000).
Proof.
  unfold run. revert w.
  induction frames as [|f frames IH]; intros w.
  - simpl. change (inject_Z 0) with 0. lra.
  - cbn [fold_left List.length]. specialize (IH (gameLoop f w)).
    assert (Hstep : gameTimeRef (gameLoop f w) <= gameTimeRef w + dt / 1000).
    { assert (Hdt : 0 <= dt / 1000) by discriminate.
      destruct (gameLoop_cases f w)
        as [[_ ->]|(level & _ & _ & _ & _ & [[_ ->]|[_ ->]])].
      - lra.
      - simpl. lra.
      - destruct (playFrame_state level f
                    (set_gameTimeRef (gameTimeRef w + dt / 1000) w))
          as (-> & _). simpl. lra. }
    rewrite Nat2Z.inj_succ. unfold Z.succ. rewrite inject_Z_plus.
    change (inject_Z 1) with 1. lra.
Qed.

(** X8.  A run is only ever won at the end of the clock and with enough
    sounds: if frames take a playing run to [win], then in the world they
    leave the counter is at least the level's [requiredSounds] and the
    clock has reached the level's [duration]; and since the clock gains at
    most one timestep per frame, that took at least as many frames as the
    duration holds timesteps.  No frame turns a collision, or a run short
    of sounds, into a win. *)
Theorem win_needs_sounds_and_time (frames : list Frame) (w : World)
        (level : LevelConfig) :
  status (gameState w) = playing ->
  currentLevel (gameState w) = Some level ->
  status (gameState (run frames w)) = win ->
  requiredSounds level <= soundsCountRef (run frames w) /\
  duration level <= gameTimeRef (run frames w) /\
  duration level
  <= gameTimeRef w + inject_Z (Z.of_nat (List.length frames)) * (dt / 1000).
Proof.
  intros Hs Hl Hwin.
  assert (H : requiredSounds level <= soundsCountRef (run frames w) /\
              duration level <= gameTimeRef (run frames w));
    [|destruct H as (Hr & Hd); split; [exact Hr|]; split; [exact Hd|];
      pose proof (run_clock_upper frames w); lra].
  revert Hwin.
  apply (run_invariant
           (fun w' => currentLevel (gameState w') = Some level /\
                      (status (gameState w') = win ->
                       requiredSounds level <= soundsCountRef w' /\
                       duration level <= gameTimeRef w'))).
  - intros f w' (Hl' & Hw').
    destruct (gameLoop_untouched f w') as (_ & _ & _ & _ & Hl2 & _).
    split; [now rewrite Hl2|].
    destruct (gameLoop_status f w') as [->|(Hp & [E|[E|(E & lv & Hlv & Hr & Hd)]])];
      auto; try (rewrite E; discriminate).
    intros _. rewrite Hl' in Hlv. injection Hlv as <-. auto.
  - split; [exact Hl|]. rewrite Hs. discriminate.
Qed.

Lemma win_needs_sounds_and_time_witness :
  requiredSounds level1 <= soundsCountRef (run [quietFrame 120000] (lastInstant 10))
  /\ duration level1 <= gameTimeRef (run [quietFrame 120000] (lastInstant 10)).
Proof.
  destruct (win_needs_sounds_and_time [quietFrame 120000] (lastInstant 10)
              level1 eq_refl eq_refl eq_refl) as (Hr & Hd & _).
  split; [exact Hr | exact Hd].
Defined.

(** X9.  Every run ends: from a playing world, a list of frames delivered
    with the canvas in place, long enough for the clock to reach the
    level's duration at one timestep per frame, leaves the run won or
    lost, never still playing and never back in the menu. *)
Theorem run_terminates (frames : list Frame) (w : World)
        (level : LevelConfig) :
  Forall (fun f => canvasMounted f = true /\ context2d f = true) frames ->
  status (gameState w) = playing ->
  currentLevel (gameState w) = Some level ->
  frames <> [] ->
  duration level
  <= gameTimeRef w + inject_Z (Z.of_nat (List.length frames)) * (dt / 1000) ->
  status (gameState (run frames w)) = win \/
  status (gameState (run frames w)) = gameover.
Proof.
  intros Hall Hs Hl Hne Hlong.
  assert (Hfin : status (gameState (run frames w)) = playing \/
                 status (gameState (run frames w)) = win \/
                 status (gameState (run frames w)) = gameover).
  { apply (run_invariant
             (fun w' => status (gameState w') = playing \/
                        status (gameState w') = win \/
                        status (gameState w') = gameover)); [|auto].
    intros f w' Hw'.
    destruct (gameLoop_status f w') as [->|(_ & [E|[E|(E & _)]])]; auto. }
  destruct Hfin as [Hplay|Hend]; [|exact Hend].
  exfalso.
  destruct (run_clock frames w level Hall Hl Hplay) as (_ & Hclock & Hbelow).
  specialize (Hbelow Hne). rewrite Hclock in Hbelow. lra.
Qed.

Lemma run_terminates_witness :
  status (gameState (run [quietFrame 120000] (lastInstant 9))) = win \/
  status (gameState (run [quietFrame 120000] (lastInstant 9))) = gameover.
Proof.
  apply (run_terminates [quietFrame 120000] (lastInstant 9) level1).
  - repeat constructor.
  - reflexivity.
  - reflexivity.
  - discriminate.
  - discriminate.
Defined.

(** ** Obstacles and scenes *)

(** The obstacles and the canvas a played frame leaves: the old obstacles,
    with at most one new one at the right edge, all scrolled; then either a
    collision, which keeps that list and paints nothing, or the pruned
    list and one new scene showing it. *)
Lemma playFrame_shape (level : LevelConfig) (f : Frame) (w : World) :
  exists spawned : list Obstacle,
    (spawned = [] \/
     exists ty, spawned = [ {| x := CANVAS_WIDTH; type := ty |} ]) /\
    ((obstaclesRef (playFrame level f w)
      = updateObstacles (currentSpeed level w * 4) (obstaclesRef w ++ spawned) /\
      canvas (playFrame level f w) = canvas w) \/
     (obstaclesRef (playFrame level f w)
      = removeOffScreen
          (updateObstacles (currentSpeed level w * 4)
             (obstaclesRef w ++ spawned)) /\
      exists glow,
        canvas (playFrame level f w)
        = {| scenePlayerY := y (playerRef (playFrame level f w));
             sceneGlow := glow;
             sceneObstacles := obstaclesRef (playFrame level f w);
             sceneTime := gameTimeRef w |} :: canvas w)).
Proof.
  pose proof (playFrame_player level f w) as Hplayer.
  unfold playFrame, advance in *.
  destruct (audioDetection_effect f w)
    as (_ & _ & _ & Ho & Hc & _ & _ & Ht).
  destruct (audioDetection_untouched f w) as (_ & _ & Hp & _).
  destruct (audioDetection f w) as [s wa]. cbn [fst snd] in *.
  assert (Hspeed : currentSpeed level (set_playerRef (physics s (playerRef wa)) wa)
                   = currentSpeed level w).
  { unfold currentSpeed; simpl. now rewrite Hp. }
  rewrite Hspeed in *.
  unfold obstacleGeneration in *. cbn [lastObstacleTime set_playerRef] in *.
  destruct (JS.gtb_quotient _ _);
    [destruct (JS.gtb (random1 f) _)|].
  - exists [ {| x := CANVAS_WIDTH;
                type := nth (Z.to_nat (JS.floor (JS.mul (random2 f) 3))) types plant |} ].
    split; [right; eauto|].
    simpl in *. rewrite Ho in *.
    destruct (collisionDetection _ _); simpl in *; [left|right];
      rewrite ?Hc, ?Ht; eauto.
  - exists []. split; [auto|]. rewrite app_nil_r.
    simpl in *. rewrite Ho in *.
    destruct (collisionDetection _ _); simpl in *; [left|right];
      rewrite ?Hc, ?Ht; eauto.
  - exists []. split; [auto|]. rewrite app_nil_r.
    simpl in *. rewrite Ho in *.
    destruct (collisionDetection _ _); simpl in *; [left|right];
      rewrite ?Hc, ?Ht; eauto.
Qed.

Lemma updateObstacles_bound (speed : number) (obs : list Obstacle) :
  0 <= speed ->
  Forall (fun o => x o <= CANVAS_WIDTH) obs ->
  Forall (fun o => x o <= CANVAS_WIDTH) (updateObstacles speed obs).
Proof.
  intros Hs Hall. unfold updateObstacles. apply Forall_map.
  eapply Forall_impl; [|exact Hall]. simpl. intros o Ho. lra.
Qed.

Lemma removeOffScreen_visible (obs : list Obstacle) :
  Forall (fun o => - OBSTACLE_WIDTH < x o) (removeOffScreen obs).
Proof.
  apply Forall_forall. intros o Hin. unfold removeOffScreen in Hin.
  apply filter_In in Hin. destruct Hin as (_ & Hgt). now apply gtb_true in Hgt.
Qed.

Lemma removeOffScreen_keeps (P : Obstacle -> Prop) (obs : list Obstacle) :
  Forall P obs -> Forall P (removeOffScreen obs).
Proof.
  rewrite !Forall_forall. intros Hall o Hin. apply Hall.
  unfold removeOffScreen in Hin. apply filter_In in Hin. tauto.
Qed.

Lemma gameLoop_obstacles (f : Frame) (w : World) (level : LevelConfig) :
  currentLevel (gameState w) = Some level ->
  0 <= currentSpeed level w ->
  Forall (fun o => x o <= CANVAS_WIDTH) (obstaclesRef w) ->
  Forall (fun o => x o <= CANVAS_WIDTH) (obstaclesRef (gameLoop f w)) /\
  (List.length (obstaclesRef (gameLoop f w))
   <= S (List.length (obstaclesRef w)))%nat.
Proof.
  intros Hl Hspeed Hall.
  destruct (gameLoop_cases f w)
    as [[_ ->]|(level' & _ & Hl' & _ & _ & [[_ ->]|[_ ->]])]; auto.
  rewrite Hl in Hl'. injection Hl' as <-.
  set (w' := set_gameTimeRef _ w).
  destruct (playFrame_shape level f w') as (spawned & Hsp & Hshape).
  change (currentSpeed level w') with (currentSpeed level w) in Hshape.
  change (obstaclesRef w') with (obstaclesRef w) in Hshape.
  assert (Hall' : Forall (fun o => x o <= CANVAS_WIDTH)
                    (obstaclesRef w ++ spawned)).
  { apply Forall_app. split; [exact Hall|].
    destruct Hsp as [->|(ty & ->)]; repeat constructor. simpl. lra. }
  assert (Hlen : (List.length (obstaclesRef w ++ spawned)
                  <= S (List.length (obstaclesRef w)))%nat).
  { rewrite length_app. destruct Hsp as [->|(ty & ->)]; simpl; lia. }
  assert (Hscroll : 0 <= currentSpeed level w * 4) by lra.
  pose proof (updateObstacles_bound _ _ Hscroll Hall') as Hup.
  destruct Hshape as [(-> & _)|(-> & _)].
  - split; [exact Hup|]. unfold updateObstacles. now rewrite length_map.
  - split; [now apply removeOffScreen_keeps|].
    unfold removeOffScreen.
    etransitivity; [apply filter_length_le|].
    unfold updateObstacles. now rewrite length_map.
Qed.

(** X10.  Obstacles enter at the right edge and only move left: in a run
    whose scroll speed is not negative, no obstacle is ever to the right
    of [CANVAS_WIDTH], and a frame adds at most one obstacle to the list,
    so after a run the list is at most one longer per frame. *)
Theorem obstacles_enter_right_and_move_left (frames : list Frame) (w : World)
        (level : LevelConfig) :
  currentLevel (gameState w) = Some level ->
  0 <= currentSpeed level w ->
  Forall (fun o => x o <= CANVAS_WIDTH) (obstaclesRef w) ->
  Forall (fun o => x o <= CANVAS_WIDTH) (obstaclesRef (run frames w)) /\
  (List.length (obstaclesRef (run frames w))
   <= List.length (obstaclesRef w) + List.length frames)%nat.
Proof.
  unfold run. revert w.
  induction frames as [|f frames IH]; intros w Hl Hspeed Hall; simpl.
  - split; [exact Hall | lia].
  - destruct (gameLoop_obstacles f w level Hl Hspeed Hall) as (Hall1 & Hlen1).
    destruct (gameLoop_untouched f w) as (_ & _ & Hp & _ & Hl1 & _).
    assert (Hspeed1 : 0 <= currentSpeed level (gameLoop f w))
      by (unfold currentSpeed in *; now rewrite Hp).
    destruct (IH (gameLoop f w) (eq_trans Hl1 Hl) Hspeed1 Hall1) as (H1 & H2).
    split; [exact H1 | lia].
Qed.

Lemma obstacles_enter_right_and_move_left_witness :
  Forall (fun o => x o <= CANVAS_WIDTH)
    (obstaclesRef (run [spawnFrame 2000; quietFrame 2017] freshRun)) /\
  List.length (obstaclesRef (run [spawnFrame 2000; quietFrame 2017] freshRun))
  = 1%nat.
Proof.
  split; [|reflexivity].
  apply (obstacles_enter_right_and_move_left
           [spawnFrame 2000; quietFrame 2017] freshRun level1).
  - reflexivity.
  - discriminate.
  - constructor.
Defined.

(** X11.  Everything ever painted is on screen: in every world the
    component can reach, each scene on the canvas shows the player between
    the ceiling and the ground, and shows no obstacle whose right edge has
    passed the left border, because the frame clamps the player and prunes
    the list before it draws. *)
Theorem painted_scenes_are_on_screen (events : list Event) :
  Forall sceneOnScreen (canvas (after events)).
Proof.
  apply (after_invariant (fun w => Forall sceneOnScreen (canvas w)));
    [constructor|].
  intros w e Hw. destruct e; simpl.
  - unfold toggleMic. destruct (micEnabled w); simpl; [exact Hw|].
    destruct granted; simpl; exact Hw.
  - unfold changeThreshold.
    destruct (JS.strict_eqb v (App.threshold w)); [exact Hw|]. simpl.
    destruct (audioProcessorRef w); exact Hw.
  - exact Hw.
  - unfold startGame. destruct (micEnabled w); simpl; exact Hw.
  - exact Hw.
  - destruct (gameLoop_cases f w)
      as [[_ ->]|(level & _ & _ & _ & _ & [[_ ->]|[_ ->]])]; auto.
    set (w' := set_gameTimeRef _ w).
    destruct (playFrame_shape level f w')
      as (spawned & _ & [(_ & ->)|(Hobs & glow & ->)]); [exact Hw|].
    constructor; [|exact Hw].
    split; cbn [scenePlayerY sceneObstacles].
    + rewrite playFrame_player. apply physics_in_bounds.
    + rewrite Hobs. apply removeOffScreen_visible.
Qed.

(** The index [Math.floor(r * 3)] for a double [r] of [0,1), the largest
    of which is [1 - 2^(-53)]: it is 0, 1 or 2, and the thirds of [r]
    decide it except just below 1/3 and 2/3, where the product can round up
    to 1 and to 2. *)
Lemma kind_index (r : number) :
  0 <= r -> r <= 1 - (1 # 2 ^ 53) ->
  (0 <= JS.floor (JS.mul r 3%Q) <= 2)%Z /\
  (r * 3 <= 1 - (1 # 2 ^ 53) -> JS.floor (JS.mul r 3) = 0%Z) /\
  (1 <= r * 3 -> (1 <= JS.floor (JS.mul r 3%Q))%Z) /\
  (r * 3 <= 2 - (1 # 2 ^ 52) -> (JS.floor (JS.mul r 3%Q) <= 1)%Z) /\
  (2 <= r * 3 -> JS.floor (JS.mul r 3) = 2%Z).
Proof.
  intros H0 H1. unfold JS.mul, JS.floor.
  assert (Hpos : 0 < 1 # 2 ^ 53) by reflexivity.
  assert (Hpos' : 0 < 1 # 2 ^ 52) by reflexivity.
  assert (Hq : 0 <= r * 3) by lra.
  assert (Hq3 : r * 3 <= 3 - 3 * (1 # 2 ^ 53)) by lra.
  set (q := r * 3) in *.
  assert (F0 : 0 <= JS.round q) by now apply round_sign.
  assert (F3 : JS.round q < 3).
  { assert (Hs : (JS.ulpExponent q <= -51)%Z).
    { apply ulpExponent_le; [exact Hq | | lia].
      change (2 ^ (-51 + 53)) with 4. lra. }
    destruct (round_error q (-51) Hq Hs) as (_ & Hhi).
    assert (E : (1 # 2) * 2 ^ (-51) == 2 * (1 # 2 ^ 53)) by reflexivity.
    rewrite E in Hhi. lra. }
  assert (Fa : q <= 1 - (1 # 2 ^ 53) -> JS.round q < 1).
  { intros H.
    assert (Hs : (JS.ulpExponent q <= -53)%Z).
    { apply ulpExponent_le; [exact Hq | | lia].
      change (2 ^ (-53 + 53)) with 1. lra. }
    assert (E : 1 - (1 # 2 ^ 53) == inject_Z (2 ^ 53 - 1) * 2 ^ (-53))
      by reflexivity.
    assert (Hr : JS.round q <= inject_Z (2 ^ 53 - 1) * 2 ^ (-53)).
    { apply round_grid; [exact Hq | exact Hs | now rewrite <- E]. }
    rewrite <- E in Hr. lra. }
  assert (Fb : 1 <= q -> 1 <= JS.round q).
  { intros H. change 1 with (inject_Z 1).
    apply round_integer; [lia | exact H |].
    assert (H53 : 3 < 2 ^ 53) by reflexivity. lra. }
  assert (Fc : q <= 2 - (1 # 2 ^ 52) -> JS.round q < 2).
  { intros H.
    assert (Hs : (JS.ulpExponent q <= -52)%Z).
    { apply ulpExponent_le; [exact Hq | | lia].
      change (2 ^ (-52 + 53)) with 2. lra. }
    assert (E : 2 - (1 # 2 ^ 52) == inject_Z (2 ^ 53 - 1) * 2 ^ (-52))
      by reflexivity.
    assert (Hr : JS.round q <= inject_Z (2 ^ 53 - 1) * 2 ^ (-52)).
    { apply round_grid; [exact Hq | exact Hs | now rewrite <- E]. }
    rewrite <- E in Hr. lra. }
  assert (Fd : 2 <= q -> 2 <= JS.round q).
  { intros H. change 2 with (inject_Z 2).
    apply round_integer; [lia | exact H |].
    assert (H53 : 3 < 2 ^ 53) by reflexivity. lra. }
  pose proof (Qfloor_le (JS.round q)) as Hlo.
  pose proof (Qlt_floor (JS.round q)) as Hhi.
  rewrite inject_Z_plus in Hhi. change (inject_Z 1) with 1 in Hhi.
  set (k := Qfloor (JS.round q)) in *.
  assert (Hk0 : (0 <= k)%Z).
  { assert (H : inject_Z (-1) < inject_Z k)
      by (change (inject_Z (-1)) with (-1); lra).
    rewrite <- Zlt_Qlt in H. lia. }
  assert (Hk3 : (k < 3)%Z).
  { rewrite Zlt_Qlt. change (inject_Z 3) with 3. lra. }
  assert (Hlt : forall c : Z, JS.round q < inject_Z c -> (k < c)%Z).
  { intros c Hc. rewrite Zlt_Qlt. lra. }
  assert (Hge : forall c : Z, inject_Z c <= JS.round q -> (c <= k)%Z).
  { intros c Hc.
    assert (H : inject_Z c < inject_Z (k + 1)).
    { rewrite inject_Z_plus. change (inject_Z 1) with 1. lra. }
    rewrite <- Zlt_Qlt in H. lia. }
  split; [lia|]. split; [|split; [|split]].
  - intros H. specialize (Hlt 1%Z (Fa H)). lia.
  - intros H. apply (Hge 1%Z). now apply Fb.
  - intros H. specialize (Hlt 2%Z (Fc H)). lia.
  - intros H. specialize (Hge 2%Z (Fd H)). lia.
Qed.

(** X12.  Spawning on the beat, on the numbers as the program computes
    them.  A zero [bpm] makes the beat interval infinite and nothing ever
    spawns.  Otherwise, when the rounded time since the spawn timer was
    set exceeds the rounded beat interval, the timer is set to the frame's
    timestamp whether or not anything spawns, and an obstacle is appended
    at the right edge exactly when the first random draw exceeds the
    double 0.4; when it does not exceed the interval the world is left as
    it is.  For a second draw that is a double of [0,1) the index of the
    kind is 0, 1 or 2, never outside the list: a pipe when three times the
    draw is at most [1 - 2^(-53)] and only when it is below 1, a box when
    it lies between 1 and [2 - 2^(-52)] and only when it lies between
    [1 - 2^(-53)] and 2, a plant when it is 2 or more and only when it is
    above [2 - 2^(-52)]. *)
Theorem spawn_on_the_beat (level : LevelConfig) (f : Frame) (w : World) :
  0 <= random2 f -> random2 f <= 1 - (1 # 2 ^ 53) ->
  (bpm level == 0 -> obstacleGeneration level f w = w) /\
  (~ bpm level == 0 ->
   (JS.round (60000 / bpm level) < JS.sub (time f) (lastObstacleTime w) ->
    lastObstacleTime (obstacleGeneration level f w) = time f /\
    (JS.round 0.4 < random1 f ->
     exists kind : ObstacleType,
       obstaclesRef (obstacleGeneration level f w)
       = obstaclesRef w ++ [ {| x := CANVAS_WIDTH; type := kind |} ] /\
       nth_error types (Z.to_nat (JS.floor (JS.mul (random2 f) 3)))
       = Some kind /\
       (random2 f * 3 <= 1 - (1 # 2 ^ 53) -> kind = pipe) /\
       (1 <= random2 f * 3 -> random2 f * 3 <= 2 - (1 # 2 ^ 52) ->
        kind = box) /\
       (2 <= random2 f * 3 -> kind = plant) /\
       (kind = pipe -> random2 f * 3 < 1) /\
       (kind = box ->
        1 - (1 # 2 ^ 53) < random2 f * 3 /\ random2 f * 3 < 2) /\
       (kind = plant -> 2 - (1 # 2 ^ 52) < random2 f * 3)) /\
    (random1 f <= JS.round 0.4 ->
     obstaclesRef (obstacleGeneration level f w) = obstaclesRef w)) /\
   (JS.sub (time f) (lastObstacleTime w) <= JS.round (60000 / bpm level) ->
    obstacleGeneration level f w = w)).
Proof.
  intros H0 H1. unfold obstacleGeneration, JS.div. split.
  - intros Hz. apply Qeq_bool_iff in Hz. rewrite Hz.
    change (60000 ?= 0) with Gt. reflexivity.
  - intros Hnz.
    assert (Ez : Qeq_bool (bpm level) 0 = false).
    { apply not_true_is_false. intros E. now apply Qeq_bool_iff in E. }
    rewrite Ez. cbn [JS.gtb_quotient]. split.
    + intros Hbeat. apply gtb_true in Hbeat. rewrite Hbeat.
      split; [now destruct (JS.gtb (random1 f) _)|]. split.
      * intros Hr. apply gtb_true in Hr. rewrite Hr.
        destruct (kind_index (random2 f) H0 H1)
          as (Hrange & Ha & Hb & Hc & Hd).
        set (i := JS.floor (JS.mul (random2 f) 3)) in *.
        assert (Hi : i = 0%Z \/ i = 1%Z \/ i = 2%Z) by lia.
        set (q := random2 f * 3) in *.
        destruct Hi as [E | [E | E]]; rewrite E in *;
          [exists pipe | exists box | exists plant];
          repeat split; try (intros; reflexivity); try discriminate.
        -- intros Hq _. specialize (Hb Hq). lia.
        -- intros Hq. specialize (Hd Hq). discriminate.
        -- intros _. destruct (Qlt_le_dec q 1) as [Hq | Hq]; [exact Hq|].
           specialize (Hb Hq). lia.
        -- intros Hq. specialize (Ha Hq). discriminate.
        -- intros Hq. specialize (Hd Hq). discriminate.
        -- destruct (Qlt_le_dec (1 - (1 # 2 ^ 53)) q) as [Hq | Hq];
             [exact Hq|]. specialize (Ha Hq). discriminate.
        -- destruct (Qlt_le_dec q 2) as [Hq | Hq]; [exact Hq|].
           specialize (Hd Hq). discriminate.
        -- intros Hq. specialize (Ha Hq). discriminate.
        -- intros _ Hq. specialize (Hc Hq). lia.
        -- intros _. destruct (Qlt_le_dec (2 - (1 # 2 ^ 52)) q) as [Hq | Hq];
             [exact Hq|]. specialize (Hc Hq). lia.
      * intros Hr. apply gtb_false in Hr. rewrite Hr. reflexivity.
    + intros Hbeat. apply gtb_false in Hbeat. now rewrite Hbeat.
Qed.

Lemma spawn_on_the_beat_witness :
  obstaclesRef (obstacleGeneration level1 (spawnFrame 2000) freshRun)
  = [ {| x := CANVAS_WIDTH; type := box |} ] /\
  lastObstacleTime (obstacleGeneration level1 (spawnFrame 2000) freshRun)
  = 2000.
Proof.
  assert (H0 : 0 <= random2 (spawnFrame 2000)) by discriminate.
  assert (H1 : random2 (spawnFrame 2000) <= 1 - (1 # 2 ^ 53))
    by (vm_compute; discriminate).
  assert (Hnz : ~ bpm level1 == 0) by discriminate.
  assert (Hbeat : JS.round (60000 / bpm level1)
                  < JS.sub (time (spawnFrame 2000)) (lastObstacleTime freshRun))
    by (vm_compute; reflexivity).
  assert (Hr : JS.round 0.4 < random1 (spawnFrame 2000))
    by (vm_compute; reflexivity).
  assert (Hbox : 1 <= random2 (spawnFrame 2000) * 3) by discriminate.
  assert (Hbox' : random2 (spawnFrame 2000) * 3 <= 2 - (1 # 2 ^ 52))
    by (vm_compute; discriminate).
  destruct (spawn_on_the_beat level1 (spawnFrame 2000) freshRun H0 H1)
    as (_ & Hdue).
  destruct (Hdue Hnz) as (Hspawn & _).
  destruct (Hspawn Hbeat) as (Ht & Hs & _).
  destruct (Hs Hr) as (kind & Hobs & _ & _ & Hkind & _).
  rewrite Hobs, (Hkind Hbox Hbox'). split; [reflexivity | exact Ht].
Defined.

(** The draws just below a third and two thirds, [0.3333333333333333]
    and [0.6666666666666666]: three times each rounds up to 1 and to 2, so
    they give a box and a plant. *)
Example draws_just_below_the_thirds :
  JS.round 0.3333333333333333 < 1 # 3 /\
  JS.floor (JS.mul (JS.round 0.3333333333333333) 3) = 1%Z /\
  JS.round 0.6666666666666666 < 2 # 3 /\
  JS.floor (JS.mul (JS.round 0.6666666666666666) 3) = 2%Z.
Proof. repeat split; vm_compute; reflexivity. Qed.

(** ** The sensitivity slider and the processor *)

Lemma gameLoop_processor_threshold (f : Frame) (w : World)
      (ap : AudioProcessor.t) :
  audioProcessorRef w = Some ap ->
  exists ap', audioProcessorRef (gameLoop f w) = Some ap' /\
              AudioProcessor.threshold ap' = AudioProcessor.threshold ap.
Proof.
  intros Ea.
  destruct (gameLoop_cases f w)
    as [[_ ->]|(level & _ & _ & _ & _ & [[_ ->]|[_ ->]])]; eauto.
  rewrite playFrame_processor.
  set (w' := set_gameTimeRef _ w).
  destruct (audioDetection_poll f w' ap Ea) as (ap' & Hp & _ & Ht & _).
  eauto.
Qed.

(** X13.  How the slider reaches the processor.  A processor created by
    [toggleMic] starts with the threshold 30 whatever the slider shows,
    since the effect that forwards the slider runs only when the slider
    changes.  A slider change made while a processor exists gives the
    processor the new value; and once the processor and the slider agree,
    they agree after every further event: frames, restarts of the
    microphone and new runs included. *)
Theorem slider_reaches_existing_processor (w : World) (e : Event)
        (v : number) (granted : bool) :
  (audioProcessorRef w = None -> micEnabled w = false ->
   exists ap,
     audioProcessorRef (toggleMic granted w) = Some ap /\
     AudioProcessor.threshold ap = 30 /\
     App.threshold (toggleMic granted w) = App.threshold w) /\
  ((exists ap, audioProcessorRef w = Some ap) ->
   JS.strict_eqb v (App.threshold w) = false ->
   thresholdsAgree (changeThreshold v w) /\
   App.threshold (changeThreshold v w) = v) /\
  (thresholdsAgree w -> thresholdsAgree (handle w e)).
Proof.
  split; [|split].
  - intros Ea Hm. unfold toggleMic. rewrite Hm, Ea. simpl.
    destruct granted; simpl; eexists; repeat split.
  - intros (ap & Ea) Hv. unfold changeThreshold, thresholdsAgree.
    rewrite Hv. simpl. rewrite Ea. simpl. split; [|reflexivity].
    eexists. split; reflexivity.
  - intros (ap & Ea & Ht). unfold thresholdsAgree.
    destruct e as [g|v0|v0|level| |f]; simpl.
    + unfold toggleMic. rewrite Ea.
      destruct (micEnabled w); simpl; [|destruct g; simpl];
        eexists; (split; [reflexivity|]); simpl; exact Ht.
    + unfold changeThreshold.
      destruct (JS.strict_eqb v0 (App.threshold w)); [eauto|].
      simpl. rewrite Ea. simpl. eexists. split; reflexivity.
    + eauto.
    + unfold startGame. destruct (micEnabled w); simpl; eauto.
    + eauto.
    + destruct (gameLoop_processor_threshold f w ap Ea) as (ap' & Ea' & Ht').
      destruct (gameLoop_untouched f w) as (_ & Hth & _).
      exists ap'. rewrite Hth, Ht'. auto.
Qed.

(** ** More on the player's motion *)

(** X14.  A player at rest on the ground stays there until an onset: if
    the player is not jumping, stands at ground level and is not moving
    upwards, the physics step of any frame, sounding or quiet, returns the
    player on the ground with zero velocity, still not jumping and with
    its timer untouched; and that player is a fixed point of the physics
    step. *)
Theorem grounded_player_stays_grounded (s : bool) (p : Player) :
  isJumping p = false ->
  y p == GROUND_Y - PLAYER_SIZE ->
  0 <= vy p ->
  physics s p =
    {| y := GROUND_Y - PLAYER_SIZE; vy := 0; isJumping := false;
       hoverTime := hoverTime p |} /\
  (forall s' : bool, physics s' (physics s p) = physics s p).
Proof.
  intros Hj Hy Hv.
  assert (G : forall (s0 : bool) (q : Player),
             isJumping q = false -> y q == GROUND_Y - PLAYER_SIZE ->
             0 <= vy q ->
             physics s0 q =
               {| y := GROUND_Y - PLAYER_SIZE; vy := 0; isJumping := false;
                  hoverTime := hoverTime q |}).
  { intros s0 q Hj0 Hy0 Hv0.
    unfold physics. rewrite jumpHover_gravity by auto.
    unfold boundaryChecks, groundCheck, integrate. cbn [y vy isJumping hoverTime].
    assert (Eg : JS.gtb (y q + (vy q + GRAVITY)) (GROUND_Y - PLAYER_SIZE) = true).
    { apply gtb_true. unfold GRAVITY. lra. }
    rewrite Eg. reflexivity. }
  split; [now apply G|].
  intros s'. rewrite (G s p Hj Hy Hv).
  rewrite G; cbn [y vy isJumping hoverTime]; try reflexivity; lra.
Qed.

Lemma grounded_player_stays_grounded_witness :
  physics true standing = standing /\ physics false standing = standing.
Proof.
  split.
  - apply (grounded_player_stays_grounded true standing);
      [reflexivity | reflexivity | discriminate].
  - apply (grounded_player_stays_grounded false standing);
      [reflexivity | reflexivity | discriminate].
Defined.

Lemma physics_keeps_impulse_bound (s : bool) (p : Player) :
  JUMP_FORCE <= vy p -> JUMP_FORCE <= vy (physics s p).
Proof.
  intros Hv. unfold physics, boundaryChecks, ceilingCheck, groundCheck.
  assert (Hq : JUMP_FORCE <= vy (integrate (jumpHover s p))).
  { unfold jumpHover, integrate.
    destruct (s && isJumping p); [destruct (JS.ltb_undef _ _)|];
      cbn [vy]; unfold JS.min, GRAVITY, JUMP_FORCE in *.
    - apply Q.min_glb; [exact Hv | discriminate].
    - lra.
    - lra. }
  set (q := integrate (jumpHover s p)) in *.
  destruct (JS.gtb (y q) _); cbn [y vy].
  - destruct (JS.ltb _ 0); cbn [vy]; discriminate.
  - destruct (JS.ltb (y q) 0); cbn [vy]; [discriminate | exact Hq].
Qed.

(** X15.  The player never moves upwards faster than the jump impulse: in
    every world the component can reach, the vertical velocity is at least
    [JUMP_FORCE].  An onset sets it to exactly that, hovering never lowers
    it, gravity raises it and the clamps zero it. *)
Theorem velocity_never_below_jump_force (events : list Event) :
  JUMP_FORCE <= vy (playerRef (after events)).
Proof.
  apply (after_player_invariant (fun p => JUMP_FORCE <= vy p)).
  - discriminate.
  - intros f w Hw.
    destruct (gameLoop_player f w) as [[-> _]|(s & [[-> _]|[-> _]])].
    + exact Hw.
    + apply physics_keeps_impulse_bound, Hw.
    + apply physics_keeps_impulse_bound. simpl. discriminate.
  - discriminate.
Qed.

(** ** The microphone flag and the processor *)

Lemma getVolume_keeps_ready (bins : list N) (p : AudioProcessor.t) :
  processorReady p -> processorReady (snd (getVolume bins p)).
Proof.
  intros (Hs & Ha & array & Hd & Hlen). unfold processorReady.
  rewrite getVolume_keeps_session.
  destruct (getVolume_keeps bins p) as (_ & _ & Ha' & _).
  rewrite Ha'. repeat split; auto.
  unfold getVolume. rewrite Ha, Hd. simpl.
  eexists. split; [reflexivity|]. now rewrite getByteFrequencyData_length.
Qed.

Lemma checkSound_keeps_ready (bins : list N) (p : AudioProcessor.t) :
  processorReady p -> processorReady (snd (checkSound bins p)).
Proof.
  intros Hp. apply (getVolume_keeps_ready bins) in Hp.
  rewrite checkSound_eq. cbn [snd]. exact Hp.
Qed.

Lemma gameLoop_processor (f : Frame) (w : World) :
  audioProcessorRef (gameLoop f w) = audioProcessorRef w \/
  exists ap,
    audioProcessorRef w = Some ap /\
    audioProcessorRef (gameLoop f w)
    = Some (snd (getVolume (binsVolume f) (snd (checkSound (binsCheck f) ap)))).
Proof.
  destruct (gameLoop_cases f w)
    as [[_ ->]|(level & _ & _ & _ & _ & [[_ ->]|[_ ->]])]; auto.
  rewrite playFrame_processor.
  set (w' := set_gameTimeRef _ w).
  destruct (audioProcessorRef w) as [ap|] eqn:Ea.
  - right. exists ap. split; [reflexivity|].
    rewrite (audioDetection_some f w' ap Ea). cbn [snd].
    destruct (onset _); reflexivity.
  - left. now rewrite (audioDetection_none f w' Ea).
Qed.

(** X16.  While the microphone flag is on, the component holds a processor
    that is ready to be polled, in every world it can reach: the session
    is live, the analyser is the one [start] configured and the buffer
    still has its 128 cells, whatever frames have been polled since.  On
    such a processor [getVolume] never takes its return-0 shortcut: given
    the analyser's 128 magnitudes it returns their peak. *)
Theorem mic_flag_means_ready_processor (events : list Event) :
  micEnabled (after events) = true ->
  exists ap,
    audioProcessorRef (after events) = Some ap /\
    processorReady ap /\
    (forall bins, List.length bins = 128%nat ->
                  fst (getVolume bins ap) = JS.of_byte (peak bins)).
Proof.
  assert (Hinv : micEnabled (after events) = true ->
                 exists ap, audioProcessorRef (after events) = Some ap /\
                            processorReady ap).
  { apply (after_invariant
             (fun w => micEnabled w = true ->
                       exists ap, audioProcessorRef w = Some ap /\
                                  processorReady ap)); [discriminate|].
    intros w e Hw. destruct e as [g|v|v|level| |f]; simpl.
    - unfold toggleMic. destruct (micEnabled w) eqn:Em; simpl;
        [discriminate|].
      destruct g; simpl; [|rewrite Em; discriminate].
      intros _. eexists. split; [reflexivity|].
      unfold processorReady. simpl. repeat split.
      eexists. split; reflexivity.
    - unfold changeThreshold.
      destruct (JS.strict_eqb v (App.threshold w)); [exact Hw|]. simpl.
      destruct (audioProcessorRef w) as [ap|] eqn:Ea; simpl; intros Hm;
        destruct (Hw Hm) as (ap' & Ea' & Hr); [|discriminate].
      injection Ea' as <-.
      eexists. split; [reflexivity|]. exact Hr.
    - exact Hw.
    - unfold startGame. destruct (micEnabled w) eqn:Em; simpl;
        rewrite ?Em; exact Hw.
    - exact Hw.
    - destruct (gameLoop_untouched f w) as (Hm & _). rewrite Hm.
      intros Hmic. destruct (Hw Hmic) as (ap & Ea & Hr).
      destruct (gameLoop_processor f w) as [->|(ap0 & Ea0 & ->)]; [eauto|].
      rewrite Ea in Ea0. injection Ea0 as <-.
      eexists. split; [reflexivity|].
      apply getVolume_keeps_ready, checkSound_keeps_ready, Hr. }
  intros Hmic. destruct (Hinv Hmic) as (ap & Ea & Hr).
  exists ap. split; [exact Ea|]. split; [exact Hr|].
  intros bins Hlen. destruct Hr as (_ & Ha & array & Hd & Hl).
  unfold getVolume. rewrite Ha, Hd. simpl.
  rewrite getByteFrequencyData_same_length by congruence. reflexivity.
Qed.

Lemma mic_flag_means_ready_processor_witness :
  exists ap,
    audioProcessorRef (after [ToggleMic true; StartGame level1;
                              AnimationFrame (loudFrame 0)]) = Some ap /\
    processorReady ap /\
    fst (getVolume spike ap) = 90.
Proof.
  destruct (mic_flag_means_ready_processor
              [ToggleMic true; StartGame level1; AnimationFrame (loudFrame 0)]
              eq_refl) as (ap & Ea & Hr & Hv).
  exists ap. split; [exact Ea|]. split; [exact Hr|].
  rewrite (Hv spike eq_refl). reflexivity.
Defined.

(** ** Landing *)

Lemma physics_keeps_grounded (s : bool) (p : Player) :
  grounded p -> grounded (physics s p).
Proof.
  intros (Hy & Hv & Hj). unfold physics.
  rewrite jumpHover_gravity by auto.
  unfold boundaryChecks, groundCheck, integrate.
  cbn [y vy isJumping hoverTime]. rewrite Hy, Hv.
  assert (Eg : JS.gtb (GROUND_Y - PLAYER_SIZE + (0 + GRAVITY))
                 (GROUND_Y - PLAYER_SIZE) = true) by reflexivity.
  rewrite Eg. repeat split.
Qed.

(** A quiet frame either puts the player on the ground or keeps it above
    the lower bounds of the next frame. *)
Lemma quiet_frame_falls (k : nat) (p : Player) :
  0 <= y p -> y p <= GROUND_Y - PLAYER_SIZE ->
  leastVelocity k <= vy p -> leastY k <= y p ->
  grounded (physics false p) \/
  (0 <= y (physics false p) /\
   y (physics false p) <= GROUND_Y - PLAYER_SIZE /\
   leastVelocity (S k) <= vy (physics false p) /\
   leastY (S k) <= y (physics false p)).
Proof.
  intros Hy0 Hy1 Hv Hy.
  assert (Hlv : leastVelocity (S k) == leastVelocity k + GRAVITY).
  { unfold leastVelocity. rewrite Nat2Z.inj_succ. unfold Z.succ.
    rewrite inject_Z_plus. change (inject_Z 1) with 1. ring. }
  pose proof ground_level as HG.
  unfold physics. rewrite jumpHover_gravity by auto.
  unfold boundaryChecks, ceilingCheck, groundCheck, integrate.
  cbn [y vy isJumping hoverTime].
  destruct (JS.gtb (y p + (vy p + GRAVITY)) (GROUND_Y - PLAYER_SIZE)) eqn:Eg.
  - left. assert (El : JS.ltb (GROUND_Y - PLAYER_SIZE) 0 = false) by reflexivity.
    cbn [y]. rewrite El. repeat split.
  - right. apply gtb_false in Eg. cbn [y].
    destruct (JS.ltb (y p + (vy p + GRAVITY)) 0) eqn:El; cbn [y vy].
    + apply ltb_true in El.
      split; [lra|]. split; [lra|]. split; [lra|].
      cbn [leastY]. apply Q.max_lub; lra.
    + apply ltb_false in El.
      split; [lra|]. split; [lra|]. split; [lra|].
      cbn [leastY]. apply Q.max_lub; lra.
Qed.

Lemma quiet_frames_fall (k : nat) (p : Player) :
  0 <= y p -> y p <= GROUND_Y - PLAYER_SIZE -> JUMP_FORCE <= vy p ->
  grounded (Nat.iter k (physics false) p) \/
  (0 <= y (Nat.iter k (physics false) p) /\
   y (Nat.iter k (physics false) p) <= GROUND_Y - PLAYER_SIZE /\
   leastVelocity k <= vy (Nat.iter k (physics false) p) /\
   leastY k <= y (Nat.iter k (physics false) p)).
Proof.
  intros Hy0 Hy1 Hv. induction k as [|k IH].
  - right. simpl. unfold leastVelocity. change (inject_Z (Z.of_nat 0)) with 0.
    repeat split; lra.
  - rewrite Nat.iter_succ.
    destruct IH as [Hg|(H0 & H1 & Hlv & Hly)].
    + left. now apply physics_keeps_grounded.
    + now apply quiet_frame_falls.
Qed.

Lemma leastY_52_below_ground : GROUND_Y - PLAYER_SIZE < leastY 52.
Proof. vm_compute. reflexivity. Qed.

Lemma fifty_two_quiet_frames_land (p : Player) :
  0 <= y p -> y p <= GROUND_Y - PLAYER_SIZE -> JUMP_FORCE <= vy p ->
  grounded (Nat.iter 52 (physics false) p).
Proof.
  intros Hy0 Hy1 Hv.
  destruct (quiet_frames_fall 52 p Hy0 Hy1 Hv) as [Hg|(_ & H1 & _ & Hly)];
    [exact Hg|].
  exfalso. pose proof leastY_52_below_ground as Hhigh.
  revert H1 Hly Hhigh.
  generalize (leastY 52), (y (Nat.iter 52 (physics false) p)),
    (GROUND_Y - PLAYER_SIZE).
  intros a b g H1 Hly Hhigh. lra.
Qed.

Lemma quiet_frames_keep_grounded (m : nat) (q : Player) :
  grounded q -> grounded (Nat.iter m (physics false) q).
Proof.
  intros Hq. induction m as [|m IH]; [exact Hq|].
  rewrite Nat.iter_succ. now apply physics_keeps_grounded.
Qed.

(** X17.  Every jump lands.  From any player between ceiling and ground
    whose velocity is at least the jump impulse, which is every player the
    loop can produce, 52 frames without sound are enough to put the player
    back on the ground, at rest and not jumping; and it stays there through
    any further quiet frames. *)
Theorem jump_lands_within_52_quiet_frames (p : Player) (n : nat) :
  0 <= y p -> y p <= GROUND_Y - PLAYER_SIZE -> JUMP_FORCE <= vy p ->
  (52 <= n)%nat ->
  grounded (Nat.iter n (physics false) p).
Proof.
  intros Hy0 Hy1 Hv Hn.
  replace n with ((n - 52) + 52)%nat by lia.
  rewrite Nat.iter_add.
  apply quiet_frames_keep_grounded.
  now apply fifty_two_quiet_frames_land.
Qed.

Lemma jump_lands_within_52_quiet_frames_witness :
  grounded (Nat.iter 52 (physics false) launched).
Proof.
  apply (jump_lands_within_52_quiet_frames launched 52);
    [discriminate | discriminate | discriminate | apply Nat.le_refl].
Defined.

(** ** The microphone gate *)

(** X18.  The microphone decides whether a run can start.  With the flag
    off: a denied permission leaves the flag off, shows the dialog, leaves
    the game state alone, and a start is still rejected; a granted
    permission turns the flag on without a dialog, and a start is then
    accepted; and toggling once more, whatever the browser would answer,
    turns the flag off again, ends the session, and a start is rejected
    again. *)
Theorem microphone_gates_the_start (w : World) (level : LevelConfig) :
  micEnabled w = false ->
  (micEnabled (toggleMic false w) = false /\
   alerts (toggleMic false w) =
     "No se pudo acceder al micrófono. Por favor, permite el acceso."%string
     :: alerts w /\
   gameState (toggleMic false w) = gameState w /\
   gameState (startGame level (toggleMic false w)) = gameState w) /\
  (micEnabled (toggleMic true w) = true /\
   micSession (toggleMic true w) = true /\
   alerts (toggleMic true w) = alerts w /\
   status (gameState (startGame level (toggleMic true w))) = playing) /\
  (forall g : bool,
      micEnabled (toggleMic g (toggleMic true w)) = false /\
      micSession (toggleMic g (toggleMic true w)) = false /\
      gameState (startGame level (toggleMic g (toggleMic true w)))
      = gameState w).
Proof.
  intros Hm. unfold toggleMic at 1 2 3 4 5 6 7 8. rewrite Hm. simpl.
  split; [|split].
  - unfold startGame. simpl. rewrite Hm. auto.
  - repeat split.
  - intros g. unfold toggleMic, startGame. rewrite Hm. simpl. repeat split.
Qed.

Lemma microphone_gates_the_start_witness :
  status (gameState (startGame level1 (toggleMic true initial))) = playing /\
  gameState (startGame level1 (toggleMic false initial)) = gameState initial.
Proof.
  destruct (microphone_gates_the_start initial level1 eq_refl)
    as ((_ & _ & _ & Hdenied) & (_ & _ & _ & Hgranted) & _).
  split; [exact Hgranted | exact Hdenied].
Defined.

(** ** Onsets in mid-air *)

(** The physics step on a player just launched by an onset, in the
    sounding frame that launched it. *)
Lemma physics_of_launch (p : Player) :
  0 <= y p -> y p <= GROUND_Y - PLAYER_SIZE ->
  let p' := physics true {| y := y p; vy := JUMP_FORCE; isJumping := true;
                            hoverTime := Some 0 |} in
  isJumping p' = true /\
  hoverTime p' = Some (0 + dt / 1000) /\
  (12 <= y p -> y p' == y p - 12 /\ vy p' == JUMP_FORCE) /\
  (y p < 12 -> y p' = 0 /\ vy p' = 0).
Proof.
  intros Hy0 Hy1. pose proof ground_level as HG.
  cbv zeta. unfold physics.
  rewrite (jumpHover_hover true _ 0) by (reflexivity || (simpl; reflexivity)).
  unfold boundaryChecks, ceilingCheck, groundCheck, integrate.
  cbn [y vy isJumping hoverTime].
  assert (Hmin : JS.min JUMP_FORCE 1.0 == -12) by reflexivity.
  set (m := JS.min JUMP_FORCE 1.0) in *. clearbody m.
  assert (HJ : JUMP_FORCE == -12) by reflexivity.
  set (j := JUMP_FORCE) in *. clearbody j.
  assert (Eg : JS.gtb (y p + m) (GROUND_Y - PLAYER_SIZE) = false)
    by (apply gtb_false; lra).
  rewrite Eg. cbn [y vy isJumping hoverTime].
  destruct (JS.ltb (y p + m) 0) eqn:El; cbn [y vy isJumping hoverTime].
  - apply ltb_true in El.
    repeat split; intros; try reflexivity; exfalso; lra.
  - apply ltb_false in El.
    repeat split; intros; try reflexivity; try lra; exfalso; lra.
Qed.

(** X19.  An onset launches the player wherever it is.  In a played frame
    that finds the processor quiet and the analyser louder than the
    threshold, the counter goes up by one and the player leaves the frame
    jumping, with a hover timer of one timestep, whether or not it was
    already in the air: 12 higher and moving at the jump velocity, or, when
    it was within 12 of the ceiling, at the ceiling and at rest. *)
Theorem onset_launches_from_anywhere (f : Frame) (w : World)
        (level : LevelConfig) (ap : AudioProcessor.t) :
  status (gameState w) = playing ->
  currentLevel (gameState w) = Some level ->
  canvasMounted f = true ->
  context2d f = true ->
  gameTimeRef w + dt / 1000 < duration level ->
  audioProcessorRef w = Some ap ->
  isSounding ap = false ->
  AudioProcessor.threshold ap < fst (getVolume (binsCheck f) ap) ->
  0 <= y (playerRef w) ->
  y (playerRef w) <= GROUND_Y - PLAYER_SIZE ->
  soundsCountRef (gameLoop f w) = soundsCountRef w + 1 /\
  isJumping (playerRef (gameLoop f w)) = true /\
  hoverTime (playerRef (gameLoop f w)) = Some (0 + dt / 1000) /\
  (12 <= y (playerRef w) ->
   y (playerRef (gameLoop f w)) == y (playerRef w) - 12 /\
   vy (playerRef (gameLoop f w)) == JUMP_FORCE) /\
  (y (playerRef w) < 12 ->
   y (playerRef (gameLoop f w)) = 0 /\ vy (playerRef (gameLoop f w)) = 0).
Proof.
  intros Hs Hl Hc Hx Ht Ha Hq Hv Hy0 Hy1.
  rewrite (sounding_frame_player f w level ap Hs Hl Hc Hx Ht Ha Hv), Hq.
  split; [|exact (physics_of_launch (playerRef w) Hy0 Hy1)].
  destruct (gameLoop_cases f w)
    as [[Hg _]|(level' & _ & Hl' & _ & _ & [[Hd _]|[_ ->]])].
  - rewrite Hs, Hc, Hl, Hx in Hg. simpl in Hg.
    destruct Hg as [Hg|[Hg|[Hg|Hg]]]; discriminate.
  - rewrite Hl in Hl'. injection Hl' as <-. lra.
  - rewrite playFrame_count.
    set (w' := set_gameTimeRef _ w).
    destruct (audioDetection_poll f w' ap Ha) as (ap' & _ & _ & _ & Hn).
    rewrite Hn. apply gtb_true in Hv. rewrite Hv, Hq. reflexivity.
Qed.

Lemma onset_launches_from_anywhere_witness :
  soundsCountRef (gameLoop (loudFrame 0) freshRun)
  = soundsCountRef freshRun + 1 /\
  isJumping (playerRef (gameLoop (loudFrame 0) freshRun)) = true.
Proof.
  assert (Ha : audioProcessorRef freshRun = Some started) by reflexivity.
  destruct (onset_launches_from_anywhere (loudFrame 0) freshRun level1 started
              eq_refl eq_refl eq_refl eq_refl eq_refl Ha eq_refl eq_refl)
    as (Hn & Hj & _); [discriminate | discriminate |].
  split; [exact Hn | exact Hj].
Defined.
